(** * genio-criativo: the quota-gated generation pipeline of
    [.netlify/functions/api.js]

    A shallow embedding of the Netlify function: the in-memory daily
    counter ([getCounterState], [updateCounterState]), the two generation
    helpers ([generateScript], [generateImages]) and the [handler] that
    sequences them, followed by the properties the specification states
    about them. *)

From Stdlib Require Import ZArith Floats Lia.
From stdpp Require Import base list strings sorting.

Local Open Scope N_scope.
Set Warnings "-register-all".

(** ** JavaScript values

    The values the program handles are the ones [JSON.parse] produces,
    plus [undefined] (the result of reading an absent property).  A JS
    number is an IEEE 754 binary64, which is what [float] is.  An object
    is the list of its own properties; a lookup takes the first entry
    with the key. *)

Inductive value :=
| VUndefined
| VNull
| VBool (b : bool)
| VNumber (x : float)
| VString (s : string)
| VArray (elems : list value)
| VObject (props : list (string * value)).

(** [ToBoolean]: what [!v] and [v || w] test.  The falsy values are
    [undefined], [null], [false], [+0], [-0], [NaN] and the empty string. *)
Definition truthy (v : value) : bool :=
  match v with
  | VUndefined | VNull => false
  | VBool b => b
  | VNumber x => negb (PrimFloat.eqb x 0%float) && PrimFloat.eqb x x
  | VString s => negb (String.eqb s "")
  | VArray _ | VObject _ => true
  end.

Definition nullish (v : value) : bool :=
  match v with
  | VUndefined | VNull => true
  | _ => false
  end.

Definition Array_isArray (v : value) : bool :=
  match v with
  | VArray _ => true
  | _ => false
  end.

Definition array_elems (v : value) : list value :=
  match v with
  | VArray xs => xs
  | _ => []
  end.

(** ** Exceptions

    Everything the program throws or catches is an [Error] object, of
    which the program only ever reads [message]. *)

Record error := Error { message : string }.

Inductive completion (A : Type) :=
| Normal (a : A)
| Throw (e : error).
Arguments Normal {A} a.
Arguments Throw {A} e.

(** ** The environment of one invocation

    What the function observes of the outside world while it serves one
    request: the clock, the built-ins it calls and the answers of the two
    upstream services. *)

Record http_response := {
  ok : bool;
  status : Z;
  response_text : completion string;   (* outcome of [response.text()] *)
  response_json : completion value     (* outcome of [response.json()] *)
}.

Inductive fetch_outcome :=
| Rejects (e : error)
| Resolves (res : http_response).

Record environment := {
  (* [new Date().toISOString()] as read in [handler] ... *)
  now_handler : string;
  (* ... and in [getCounterState], when the store is still empty *)
  now_store : string;
  (* the built-in [JSON.parse]: a value or a SyntaxError *)
  JSON_parse : value -> completion value;
  (* the text the built-in string conversion gives for a value that has
     one *)
  ToString : value -> string;
  (* message of the TypeError the engine raises when property [p] is
     read from the nullish value [v] *)
  TypeError_message : value -> string -> string;
  (* message of the TypeError the engine raises when [v] cannot be
     converted to a primitive value *)
  ToPrimitive_message : value -> string;
  (* outcome of the call to the text-generation service *)
  fetch_gemini : fetch_outcome;
  (* outcome of the [i]-th call to the image service *)
  fetch_image : nat -> fetch_outcome;
  (* time the [i]-th image call takes to settle *)
  image_latency : nat -> nat
}.

(** ** Property access *)

Fixpoint own_property (k : string) (props : list (string * value)) : value :=
  match props with
  | [] => VUndefined
  | (k', v) :: rest => if String.eqb k k' then v else own_property k rest
  end.

(** The property names the program reads.  None of them exists on
    [Object.prototype], [Array.prototype] or [String.prototype], so on
    anything but an object with such an own property the read yields
    [undefined]. *)
Inductive field :=
| Fcandidates | Fcontent | Fparts | Ftext | Fscript
| Fdescription | Ftitle | FimageUrl | Fidea | Fduration.

Definition field_name (f : field) : string :=
  match f with
  | Fcandidates => "candidates"
  | Fcontent => "content"
  | Fparts => "parts"
  | Ftext => "text"
  | Fscript => "script"
  | Fdescription => "description"
  | Ftitle => "title"
  | FimageUrl => "imageUrl"
  | Fidea => "idea"
  | Fduration => "duration"
  end.

Fixpoint has_own_property (k : string) (props : list (string * value)) : bool :=
  match props with
  | [] => false
  | (k', _) :: rest => String.eqb k k' || has_own_property k rest
  end.

(** Whether the string conversion of a value returns.  A primitive always
    converts.  An object goes through [toString], then [valueOf]: without
    an own [toString] it inherits [Object.prototype.toString]; an own one
    is never callable in a value that came out of [JSON.parse], the
    inherited [valueOf] returns the object itself, and the conversion
    ends in a TypeError.  An array is joined, which converts each of its
    elements that is not [null] or [undefined]. *)
Fixpoint convertible (v : value) : bool :=
  match v with
  | VObject props => negb (has_own_property "toString" props)
  | VArray elems => forallb convertible elems
  | _ => true
  end.

Section Builtins.
Context (E : environment).

(** [`${v}`]: the string conversion of a substitution in a template
    literal. *)
Definition template (v : value) : completion string :=
  if convertible v then Normal (ToString E v)
  else Throw (Error (ToPrimitive_message E v)).

(** [v.f] *)
Definition Get (v : value) (f : field) : completion value :=
  match v with
  | VUndefined | VNull => Throw (Error (TypeError_message E v (field_name f)))
  | VObject props => Normal (own_property (field_name f) props)
  | _ => Normal VUndefined
  end.

(** [v[0]] *)
Definition Get0 (v : value) : completion value :=
  match v with
  | VUndefined | VNull => Throw (Error (TypeError_message E v "0"))
  | VObject props => Normal (own_property "0" props)
  | VArray xs => Normal (default VUndefined (xs !! 0%nat))
  | VString (String c _) => Normal (VString (String c ""))
  | _ => Normal VUndefined
  end.

(** [const { idea, duration } = v] *)
Definition destructure (v : value) : completion (value * value) :=
  match Get v Fidea with
  | Throw e => Throw e
  | Normal i =>
      match Get v Fduration with
      | Throw e => Throw e
      | Normal d => Normal (i, d)
      end
  end.
End Builtins.

(** ** The counter store and the effects of a run

    [global.counterState] is either still [undefined] (a cold start) or an
    object [{ count, lastReset }].  Only this module writes it: [count]
    starts at 0 and is incremented only while below the limit, so it is a
    natural number in a range where the arithmetic of doubles is exact. *)

Record counter := { count : N; lastReset : string }.

(** The calls a run makes that are visible outside the invocation:
    the write of the counter and the requests to the two services. *)
Inductive effect :=
| UpdateCounterState (newState : counter)
| FetchGemini (idea duration : value)
| FetchImage (i : nat) (prompt : value).

Record world := {
  counterState : option counter;   (* [global.counterState] *)
  calls : list effect              (* oldest first *)
}.

(** Computations of the program: they read and write the [world] and
    either return or throw. *)
Definition M (A : Type) : Type := world -> completion A * world.

#[export] Instance M_ret : MRet M := λ A a w, (Normal a, w).

#[export] Instance M_bind : MBind M := λ A B k m w,
  match m w with
  | (Normal a, w') => k a w'
  | (Throw e, w') => (Throw e, w')
  end.

Definition throw {A} (e : error) : M A := λ w, (Throw e, w).

Definition await {A} (c : completion A) : M A := λ w, (c, w).

(** [try { m } catch (e) { h e }] *)
Definition try_catch {A} (m : M A) (h : error -> M A) : M A := λ w,
  match m w with
  | (Normal a, w') => (Normal a, w')
  | (Throw e, w') => h e w'
  end.

Definition emit (e : effect) : M unit := λ w,
  (Normal tt, {| counterState := counterState w; calls := calls w ++ [e] |}).

(** The local variable [state] of [handler]: the object it holds, and
    whether that object is the very one [global.counterState] points to
    (then a mutation of it is a mutation of the store). *)
Record state_var := { obj : counter; shared : bool }.

(** [dateString.split('T')[0]] *)
Fixpoint before_T (s : string) : string :=
  match s with
  | EmptyString => EmptyString
  | String c rest =>
      if Ascii.eqb c (Ascii.ascii_of_nat 84) (* 'T' *) then EmptyString
      else String c (before_T rest)
  end.

Definition GLOBAL_DAILY_LIMIT : N := 50.

Definition placeholder_generated : value :=
  VString "https://via.placeholder.com/1024x1024.png?text=Imagem+Gerada".

Definition placeholder_failed : value :=
  VString "https://via.placeholder.com/1024x1024.png?text=Falha+ao+Gerar".

Definition msg_upstream : string :=
  "Falha ao gerar o roteiro. A API Gemini retornou um erro.".

Definition msg_invalid_script : string :=
  "Formato de script inválido recebido da API.".

Definition msg_format : string :=
  "A resposta da API de geração de roteiro não estava no formato esperado.".

Definition msg_method : string := "Método não permitido. Use POST.".

Definition msg_limit : string :=
  "Limite de gerações diárias atingido. Faça upgrade.".

Definition dquote : string := String (Ascii.ascii_of_nat 34) EmptyString.

Definition msg_required : string :=
  "Os campos " +:+ dquote +:+ "idea" +:+ dquote +:+ " e " +:+ dquote +:+
  "duration" +:+ dquote +:+ " são obrigatórios.".

Definition msg_internal : string := "Ocorreu um erro interno no servidor.".

Definition newline : string := String (Ascii.ascii_of_nat 10) EmptyString.

Definition in_quotes (s : string) : string := dquote +:+ s +:+ dquote.

(** The text of the prompt for the converted [idea] and [duration]. *)
Definition prompt_text (idea duration : string) : string :=
  newline +:+
  "    Crie um roteiro detalhado para um vídeo de " +:+ duration +:+
  " segundos sobre o tema: " +:+ in_quotes idea +:+ "." +:+ newline +:+
  "    O roteiro deve ser uma lista de cenas." +:+ newline +:+
  "    Sua resposta DEVE ser APENAS um objeto JSON válido, sem nenhuma " +:+
  "formatação extra como markdown (```json)." +:+ newline +:+
  "    O objeto JSON deve conter uma única chave chamada " +:+
  in_quotes "script" +:+ ", que é um array de objetos." +:+ newline +:+
  "    Cada objeto de cena no array deve ter exatamente as seguintes " +:+
  "chaves:" +:+ newline +:+
  "    - " +:+ in_quotes "title" +:+
  ": (string) Um título curto para a cena." +:+ newline +:+
  "    - " +:+ in_quotes "timing" +:+
  ": (string) O tempo da cena no formato " +:+ in_quotes "início-fim" +:+
  " em segundos (ex: " +:+ in_quotes "0-5s" +:+ ")." +:+ newline +:+
  "    - " +:+ in_quotes "description" +:+
  ": (string) Uma descrição visual detalhada, otimizada para ser usada " +:+
  "como prompt em uma API de geração de imagem." +:+ newline +:+
  "    - " +:+ in_quotes "soundtrackSuggestion" +:+
  ": (string) Uma sugestão de trilha sonora ou efeito sonoro." +:+ newline +:+
  "    - " +:+ in_quotes "narrationScript" +:+
  ": (string) O texto da narração para esta cena." +:+ newline +:+
  "  ".

Section Program.
Context (E : environment).

(** [{ count: 0, lastReset: new Date().toISOString().split('T')[0] }] *)
Definition initial_counter : counter :=
  {| count := 0; lastReset := before_T (now_store E) |}.

(** [getCounterState]: fills the store on a cold start and returns the
    stored object itself. *)
Definition getCounterState : M state_var := λ w,
  let o := default initial_counter (counterState w) in
  (Normal {| obj := o; shared := true |},
   {| counterState := Some o; calls := calls w |}).

(** [updateCounterState]: [global.counterState = newState]. *)
Definition updateCounterState (newState : state_var) : M unit := λ w,
  (Normal tt,
   {| counterState := Some (obj newState);
      calls := calls w ++ [UpdateCounterState (obj newState)] |}).

(** [state.count++] *)
Definition increment (state : state_var) : M state_var := λ w,
  let o := {| count := count (obj state) + 1;
              lastReset := lastReset (obj state) |} in
  (Normal {| obj := o; shared := shared state |},
   {| counterState := if shared state then Some o else counterState w;
      calls := calls w |}).

(** The prompt of [generateScript]: a template with two substitutions,
    [duration] first. *)
Definition script_prompt (idea duration : value) : completion string :=
  match template E duration with
  | Throw e => Throw e
  | Normal d =>
      match template E idea with
      | Throw e => Throw e
      | Normal i => Normal (prompt_text i d)
      end
  end.

(** [generateScript].  The request carries the prompt; it is logged with
    the [idea] and [duration] the prompt was built from. *)
Definition generateScript (idea duration : value) : M (list value) :=
  prompt ← await (script_prompt idea duration);
  emit (FetchGemini idea duration);;
  response ← await (match fetch_gemini E with
                    | Rejects e => Throw e
                    | Resolves res => Normal res
                    end);
  if negb (ok response) then
    errorBody ← await (response_text response);
    throw (Error msg_upstream)
  else
    data ← await (response_json response);
    try_catch
      (candidates ← await (Get E data Fcandidates);
       candidate ← await (Get0 E candidates);
       content ← await (Get E candidate Fcontent);
       parts ← await (Get E content Fparts);
       part ← await (Get0 E parts);
       scriptJsonText ← await (Get E part Ftext);
       result ← await (JSON_parse E scriptJsonText);
       script ← await (Get E result Fscript);
       if negb (truthy script) || negb (Array_isArray script) then
         throw (Error msg_invalid_script)
       else
         mret (array_elems script))
      (λ e, throw (Error msg_format)).

(** The promise built for one scene, as the outcome it settles with:
    [fetch(...).then(res => ...).then(data => ...)] ... *)
Definition image_pipeline (i : nat) (scene : value) : completion value :=
  match fetch_image E i with
  | Rejects e => Throw e
  | Resolves res =>
      if negb (ok res) then
        match Get E scene Ftitle with
        | Throw e => Throw e
        | Normal title =>
            match template E title with
            | Throw e => Throw e
            | Normal t =>
                Throw (Error ("API de imagem falhou para a cena: " +:+ t))
            end
        end
      else
        match response_json res with
        | Throw e => Throw e
        | Normal data =>
            match Get E data FimageUrl with
            | Throw e => Throw e
            | Normal imageUrl =>
                Normal (if truthy imageUrl then imageUrl
                        else placeholder_generated)
            end
        end
  end.

(** ... [.catch(error => placeholder)] *)
Definition catch_failed (p : completion value) : completion value :=
  match p with
  | Normal v => Normal v
  | Throw _ => Normal placeholder_failed
  end.

(** [script.map(scene => ...)], from index [i] on: reads the prompt of
    each scene, converts it for the log line and issues its request, in
    order. *)
Fixpoint map_scenes (i : nat) (script : list value)
  : M (list (completion value)) :=
  match script with
  | [] => mret []
  | scene :: rest =>
      prompt ← await (Get E scene Fdescription);
      logged ← await (template E prompt);
      emit (FetchImage i prompt);;
      promises ← map_scenes (S i) rest;
      mret (catch_failed (image_pipeline i scene) :: promises)
  end.

(** The order in which the calls settle: by latency. *)
Definition sooner (i j : nat) : Prop :=
  (image_latency E i ≤ image_latency E j)%nat.

#[export] Instance sooner_dec : RelDecision sooner.
Proof. intros i j; unfold sooner; apply _. Defined.

Definition completion_order (k : nat) : list nat :=
  merge_sort sooner (seq 0 k).

(** [Promise.all]: as the promises settle, in [order], a fulfilled one
    stores its value at its own index; the first rejected one rejects
    the whole. *)
Fixpoint Promise_all_loop (order : list nat)
    (promises : list (completion value)) (values : list value)
  : completion (list value) :=
  match order with
  | [] => Normal values
  | i :: rest =>
      match promises !! i with
      | Some (Normal v) => Promise_all_loop rest promises (<[i:=v]> values)
      | Some (Throw e) => Throw e
      | None => Promise_all_loop rest promises values
      end
  end.

Definition Promise_all (promises : list (completion value))
  : completion (list value) :=
  Promise_all_loop (completion_order (length promises)) promises
                   (replicate (length promises) VUndefined).

Definition generateImages (script : list value) : M (list value) :=
  imagePromises ← map_scenes 0 script;
  await (Promise_all imagePromises).
End Program.

(** ** The handler *)

Record request := {
  httpMethod : string;
  body : value          (* [event.body]: a string, or [null] *)
}.

(** The object handed to [JSON.stringify] for the response body. *)
Inductive payload :=
| ErrorBody (error : string)
| ResultBody (script images : list value).

Record response := {
  statusCode : Z;
  headers : list (string * string);
  response_body : option payload
}.

Definition cors_headers : list (string * string) :=
  [("Access-Control-Allow-Origin", "*");
   ("Access-Control-Allow-Headers", "Content-Type");
   ("Access-Control-Allow-Methods", "POST, OPTIONS");
   ("Content-Type", "application/json")].

Definition reply (code : Z) (b : payload) : response :=
  {| statusCode := code; headers := cors_headers; response_body := Some b |}.

Section Handler.
Context (E : environment).

(** The reset of a new day: a fresh object, not yet in the store. *)
Definition reset_if_new_day (today : string) (state : state_var) : state_var :=
  if negb (String.eqb (lastReset (obj state)) today) then
    {| obj := {| count := 0; lastReset := today |}; shared := false |}
  else state.

(** [error.message || '...'] *)
Definition error_text (error : error) : string :=
  if String.eqb (message error) "" then msg_internal else message error.

Definition handler (event : request) : M response :=
  if String.eqb (httpMethod event) "OPTIONS" then
    mret {| statusCode := 204; headers := cors_headers;
            response_body := None |}
  else if negb (String.eqb (httpMethod event) "POST") then
    mret (reply 405 (ErrorBody msg_method))
  else
    try_catch
      (let today := before_T (now_handler E) in
       state ← getCounterState E;
       let state := reset_if_new_day today state in
       if GLOBAL_DAILY_LIMIT <=? count (obj state) then
         mret (reply 429 (ErrorBody msg_limit))
       else
         parsed ← await (JSON_parse E (body event));
         fields ← await (destructure E parsed);
         let idea := fields.1 in
         let duration := fields.2 in
         if negb (truthy idea) || negb (truthy duration) then
           mret (reply 400 (ErrorBody msg_required))
         else
           state ← increment state;
           updateCounterState state;;
           script ← generateScript E idea duration;
           images ← generateImages E script;
           mret (reply 200 (ResultBody script images)))
      (λ error,
         mret (reply 500 (ErrorBody (error_text error)))).
End Handler.

(** The state the limit check of [handler] looks at, given the store the
    request finds. *)
Definition observed_state (E : environment) (store : option counter)
  : counter :=
  obj (reset_if_new_day (before_T (now_handler E))
         {| obj := default (initial_counter E) store; shared := true |}).

(** What [generateScript] returns or throws in [E] once its prompt is
    built and its request sent: from there on it depends neither on the
    arguments nor on the store. *)
Definition script_outcome (E : environment) : completion (list value) :=
  (generateScript E VUndefined VUndefined
     {| counterState := None; calls := [] |}).1.

(** What [generateScript] returns or throws in [E] for [idea] and
    [duration]. *)
Definition script_for (E : environment) (idea duration : value)
  : completion (list value) :=
  (generateScript E idea duration {| counterState := None; calls := [] |}).1.

(** The requests [generateScript] sends for [idea] and [duration]: one,
    if the prompt can be built. *)
Definition script_calls (idea duration : value) : list effect :=
  if convertible duration && convertible idea
  then [FetchGemini idea duration] else [].

(** The [idea] and [duration] of a request: [JSON.parse] of its body,
    destructured. *)
Definition request_fields (E : environment) (event : request)
  : completion (value * value) :=
  match JSON_parse E (body event) with
  | Throw e => Throw e
  | Normal parsed => destructure E parsed
  end.

(** The image reference the [i]-th promise of [generateImages] fulfils
    with. *)
Definition scene_image (E : environment) (i : nat) (scene : value) : value :=
  match image_pipeline E i scene with
  | Normal v => v
  | Throw _ => placeholder_failed
  end.

(** The prompt of a scene: its [description]. *)
Definition prompt_of (scene : value) : value :=
  match scene with
  | VObject props => own_property "description" props
  | _ => VUndefined
  end.

(** A scene [generateImages] can issue a request for: it is not [null] or
    [undefined], so that its description can be read, and the
    description has a string conversion, so that it can be logged. *)
Definition promptable (scene : value) : bool :=
  negb (nullish scene) && convertible (prompt_of scene).

(** The requests [generateImages] issues for the scenes of [script], the
    first of which has index [i]. *)
Definition image_calls (i : nat) (script : list value) : list effect :=
  imap (λ k scene, FetchImage (i + k) (prompt_of scene)) script.

Definition log (e : effect) (w : world) : world :=
  {| counterState := counterState w; calls := calls w ++ [e] |}.

(** The world once [getCounterState] has run on [store]. *)
Definition after_read (E : environment) (store : option counter) : world :=
  {| counterState := Some (default (initial_counter E) store); calls := [] |}.

(** The counter an admitted request writes. *)
Definition incremented (E : environment) (store : option counter) : counter :=
  {| count := count (observed_state E store) + 1;
     lastReset := lastReset (observed_state E store) |}.

(** How the run of an admitted request ends: the counter is written,
    then the script is asked for, then the images. *)
Definition admitted_outcome (E : environment) (store : option counter)
    (idea duration : value) : completion response * world :=
  let w0 := {| counterState := Some (incremented E store);
               calls := [UpdateCounterState (incremented E store)] |} in
  match generateScript E idea duration w0 with
  | (Throw e, w1) => (Normal (reply 500 (ErrorBody (error_text e))), w1)
  | (Normal script, w1) =>
      match generateImages E script w1 with
      | (Normal images, w2) =>
          (Normal (reply 200 (ResultBody script images)), w2)
      | (Throw e, w2) => (Normal (reply 500 (ErrorBody (error_text e))), w2)
      end
  end.

(** The paths through [handler], in the order of its tests: what decides
    each and what the run then amounts to. *)
Inductive served (E : environment) (store : option counter) (event : request)
  : completion response * world → Prop :=
| served_OPTIONS :
    httpMethod event = "OPTIONS" →
    served E store event
      (Normal {| statusCode := 204; headers := cors_headers;
                 response_body := None |},
       {| counterState := store; calls := [] |})
| served_other_method :
    httpMethod event ≠ "OPTIONS" → httpMethod event ≠ "POST" →
    served E store event
      (Normal (reply 405 (ErrorBody msg_method)),
       {| counterState := store; calls := [] |})
| served_rejected :
    httpMethod event = "POST" →
    GLOBAL_DAILY_LIMIT ≤ count (observed_state E store) →
    served E store event
      (Normal (reply 429 (ErrorBody msg_limit)), after_read E store)
| served_parse_throws e :
    httpMethod event = "POST" →
    count (observed_state E store) < GLOBAL_DAILY_LIMIT →
    JSON_parse E (body event) = Throw e →
    served E store event
      (Normal (reply 500 (ErrorBody (error_text e))), after_read E store)
| served_destructure_throws parsed e :
    httpMethod event = "POST" →
    count (observed_state E store) < GLOBAL_DAILY_LIMIT →
    JSON_parse E (body event) = Normal parsed →
    destructure E parsed = Throw e →
    served E store event
      (Normal (reply 500 (ErrorBody (error_text e))), after_read E store)
| served_invalid parsed idea duration :
    httpMethod event = "POST" →
    count (observed_state E store) < GLOBAL_DAILY_LIMIT →
    JSON_parse E (body event) = Normal parsed →
    destructure E parsed = Normal (idea, duration) →
    truthy idea && truthy duration = false →
    served E store event
      (Normal (reply 400 (ErrorBody msg_required)), after_read E store)
| served_admitted parsed idea duration :
    httpMethod event = "POST" →
    count (observed_state E store) < GLOBAL_DAILY_LIMIT →
    JSON_parse E (body event) = Normal parsed →
    destructure E parsed = Normal (idea, duration) →
    truthy idea = true → truthy duration = true →
    served E store event (admitted_outcome E store idea duration).

(** ** Serving requests

    An invocation starts from the store the previous one left and from
    an empty log of calls. *)

Definition serve (store : option counter) (E : environment) (event : request)
  : completion response * world :=
  handler E event {| counterState := store; calls := [] |}.

Definition store_after (store : option counter) (E : environment)
    (event : request) : option counter :=
  counterState (serve store E event).2.

Definition calls_of (store : option counter) (E : environment)
    (event : request) : list effect :=
  calls (serve store E event).2.

(** The requests of a run, each with the environment it is served in. *)
Fixpoint serve_all (store : option counter)
    (reqs : list (environment * request)) : option counter :=
  match reqs with
  | [] => store
  | (E, event) :: rest => serve_all (store_after store E event) rest
  end.

Definition is_update (e : effect) : bool :=
  match e with
  | UpdateCounterState _ => true
  | _ => false
  end.

Definition is_upstream (e : effect) : bool :=
  match e with
  | FetchGemini _ _ | FetchImage _ _ => true
  | UpdateCounterState _ => false
  end.

(** A request is admitted when its run reaches the increment, that is,
    when it writes the counter. *)
Definition admitted (store : option counter) (E : environment)
    (event : request) : bool :=
  existsb is_update (calls_of store E event).

Fixpoint all_admitted (store : option counter)
    (reqs : list (environment * request)) : bool :=
  match reqs with
  | [] => true
  | (E, event) :: rest =>
      admitted store E event && all_admitted (store_after store E event) rest
  end.

(** ** Vocabulary of the specification *)

(** The same environment with other latencies of the image calls. *)
Definition with_latency (E : environment) (latency : nat → nat)
  : environment :=
  {| now_handler := now_handler E; now_store := now_store E;
     JSON_parse := JSON_parse E; ToString := ToString E;
     TypeError_message := TypeError_message E;
     ToPrimitive_message := ToPrimitive_message E;
     fetch_gemini := fetch_gemini E; fetch_image := fetch_image E;
     image_latency := latency |}.

(** The [i]-th image call fails: the transport fails, the status is not a
    success, or reading the answer throws (its body is not JSON, or is
    [null], of which no property can be read). *)
Inductive image_call_fails (E : environment) (i : nat) : Prop :=
| transport_error e :
    fetch_image E i = Rejects e → image_call_fails E i
| non_success_status res :
    fetch_image E i = Resolves res → ok res = false → image_call_fails E i
| body_not_json res e :
    fetch_image E i = Resolves res → ok res = true →
    response_json res = Throw e → image_call_fails E i
| body_nullish res data :
    fetch_image E i = Resolves res → ok res = true →
    response_json res = Normal data → nullish data = true →
    image_call_fails E i.

(** The [i]-th image call succeeds with the payload [data]. *)
Definition image_call_succeeds (E : environment) (i : nat) (data : value)
  : Prop :=
  ∃ res, fetch_image E i = Resolves res ∧ ok res = true
         ∧ response_json res = Normal data ∧ nullish data = false.

(** The answer [data] of the text service carries the script [scenes]:
    the text at [candidates[0].content.parts[0].text] parses to something
    whose [script] is the array [scenes]. *)
Definition carries_script (E : environment) (data : value) (scenes : list value)
  : Prop :=
  ∃ candidates candidate content parts part text result,
    Get E data Fcandidates = Normal candidates
    ∧ Get0 E candidates = Normal candidate
    ∧ Get E candidate Fcontent = Normal content
    ∧ Get E content Fparts = Normal parts
    ∧ Get0 E parts = Normal part
    ∧ Get E part Ftext = Normal text
    ∧ JSON_parse E text = Normal result
    ∧ Get E result Fscript = Normal (VArray scenes).

Definition is_string (v : value) : bool :=
  match v with
  | VString _ => true
  | _ => false
  end.

(** Following the specification's words: a Scene-shaped record has the
    five named string fields. *)
Definition Scene_shaped (v : value) : bool :=
  match v with
  | VObject props =>
      forallb (λ k, is_string (own_property k props))
              ["title"; "timing"; "description"; "soundtrackSuggestion";
               "narrationScript"]
  | _ => false
  end.

(** Following the specification's words: the parsed payload is malformed
    when it has no top-level [script] field or that field is not a
    sequence of Scene-shaped records. *)
Definition malformed_per_spec (result : value) : bool :=
  match result with
  | VObject props =>
      match own_property "script" props with
      | VArray scenes => negb (forallb Scene_shaped scenes)
      | _ => true
      end
  | _ => true
  end.

(** ** Sample requests and environments

    Concrete data for the examples further down: request bodies, the
    answer of the text service with a script of three scenes, and answers
    of the image service. *)

Definition quoted (s : string) : string := dquote +:+ s +:+ dquote.

Definition member (k v : string) : string := quoted k +:+ ":" +:+ quoted v.

Definition scene_text (title timing description soundtrack narration : string)
  : string :=
  "{" +:+ member "title" title +:+ "," +:+ member "timing" timing +:+ ","
  +:+ member "description" description +:+ ","
  +:+ member "soundtrackSuggestion" soundtrack +:+ ","
  +:+ member "narrationScript" narration +:+ "}".

Definition scene_value (title timing description soundtrack narration : string)
  : value :=
  VObject [("title", VString title); ("timing", VString timing);
           ("description", VString description);
           ("soundtrackSuggestion", VString soundtrack);
           ("narrationScript", VString narration)].

Definition scene1_text : string :=
  scene_text "Blank canvas" "0-10s" "A robot facing an empty canvas"
             "Soft piano" "A robot discovers a brush.".
Definition scene2_text : string :=
  scene_text "First strokes" "10-20s" "A robot arm painting clumsy lines"
             "Rising strings" "It tries, and tries again.".
Definition scene3_text : string :=
  scene_text "Masterpiece" "20-30s" "A robot beside a colourful painting"
             "Full orchestra" "At last, it paints.".

Definition scene1 : value :=
  scene_value "Blank canvas" "0-10s" "A robot facing an empty canvas"
              "Soft piano" "A robot discovers a brush.".
Definition scene2 : value :=
  scene_value "First strokes" "10-20s" "A robot arm painting clumsy lines"
              "Rising strings" "It tries, and tries again.".
Definition scene3 : value :=
  scene_value "Masterpiece" "20-30s" "A robot beside a colourful painting"
              "Full orchestra" "At last, it paints.".

(** [{"script":[scene1,scene2,scene3]}] *)
Definition script_text : string :=
  "{" +:+ quoted "script" +:+ ":[" +:+ scene1_text +:+ "," +:+ scene2_text
  +:+ "," +:+ scene3_text +:+ "]}".

(** [{"script":[1]}] *)
Definition numbers_text : string := "{" +:+ quoted "script" +:+ ":[1]}".

(** [{"idea":"a robot learns to paint","duration":30}] *)
Definition body_robot : string :=
  "{" +:+ member "idea" "a robot learns to paint" +:+ ","
  +:+ quoted "duration" +:+ ":30}".

(** [{"idea":"","duration":30}] *)
Definition body_empty_idea : string :=
  "{" +:+ member "idea" "" +:+ "," +:+ quoted "duration" +:+ ":30}".

(** [{"idea":"a robot learns to paint","duration":0}] *)
Definition body_zero_duration : string :=
  "{" +:+ member "idea" "a robot learns to paint" +:+ ","
  +:+ quoted "duration" +:+ ":0}".

(** [{"duration":30}] *)
Definition body_no_idea : string := "{" +:+ quoted "duration" +:+ ":30}".

(** [JSON.parse] on the texts above and on [null], which it converts to
    the text [null] first.  On anything else it is made to throw; of
    that the examples use only the text of a lone brace, which is not
    JSON. *)
Definition sample_texts : list (string * value) :=
  [(body_robot,
    VObject [("idea", VString "a robot learns to paint");
             ("duration", VNumber 30%float)]);
   (body_empty_idea,
    VObject [("idea", VString ""); ("duration", VNumber 30%float)]);
   (body_zero_duration,
    VObject [("idea", VString "a robot learns to paint");
             ("duration", VNumber 0%float)]);
   (body_no_idea, VObject [("duration", VNumber 30%float)]);
   ("{}", VObject []);
   (script_text, VObject [("script", VArray [scene1; scene2; scene3])]);
   (numbers_text, VObject [("script", VArray [VNumber 1%float])])].

Fixpoint find_text (s : string) (table : list (string * value))
  : option value :=
  match table with
  | [] => None
  | (s', v) :: rest => if String.eqb s s' then Some v else find_text s rest
  end.

Definition sample_JSON_parse (v : value) : completion value :=
  match v with
  | VString s =>
      match find_text s sample_texts with
      | Some parsed => Normal parsed
      | None => Throw (Error "Unexpected end of JSON input")
      end
  | VNull => Normal VNull
  | _ => Throw (Error "Unexpected token in JSON")
  end.

Definition sample_ToString (v : value) : string :=
  match v with
  | VString s => s
  | VNull => "null"
  | _ => "undefined"
  end.

Definition json_response (data : value) : fetch_outcome :=
  Resolves {| ok := true; status := 200;
              response_text := Normal ""; response_json := Normal data |}.

Definition error_response (code : Z) : fetch_outcome :=
  Resolves {| ok := false; status := code;
              response_text := Normal "upstream error";
              response_json := Throw (Error "Unexpected token in JSON") |}.

(** The answer of the text service that carries [text]. *)
Definition gemini_answer (text : string) : fetch_outcome :=
  json_response
    (VObject [("candidates",
       VArray [VObject [("content",
         VObject [("parts", VArray [VObject [("text", VString text)]])])]])]).

Definition sample_env (now : string) (gemini : fetch_outcome)
    (image : nat → fetch_outcome) (latency : nat → nat) : environment :=
  {| now_handler := now; now_store := now;
     JSON_parse := sample_JSON_parse;
     ToString := sample_ToString;
     TypeError_message := λ _ p, "Cannot read properties of undefined";
     ToPrimitive_message := λ _, "Cannot convert object to primitive value";
     fetch_gemini := gemini;
     fetch_image := image;
     image_latency := latency |}.

Definition image_url (i : nat) : value :=
  VString (match i with
           | O => "https://img.example/0.png"
           | 1%nat => "https://img.example/1.png"
           | _ => "https://img.example/n.png"
           end).

(** Every image call succeeds. *)
Definition images_ok (i : nat) : fetch_outcome :=
  json_response (VObject [("imageUrl", image_url i)]).

(** The call for the second scene fails, the others succeed. *)
Definition images_second_fails (i : nat) : fetch_outcome :=
  match i with
  | 1%nat => error_response 503
  | _ => images_ok i
  end.

(** Later scenes settle first. *)
Definition later_first (i : nat) : nat := (10 - i)%nat.

Definition morning : string := "2024-05-02T09:30:00.000Z".

Definition post (text : string) : request :=
  {| httpMethod := "POST"; body := VString text |}.

Definition robot_env : environment :=
  sample_env morning (gemini_answer script_text) images_ok later_first.

(** The text service is down. *)
Definition gemini_down_env : environment :=
  sample_env morning (error_response 503) images_ok later_first.

(** The text service answers with a script that is an array of numbers. *)
Definition numbers_env : environment :=
  sample_env morning (gemini_answer numbers_text) images_ok later_first.

(** The image call of the second scene fails. *)
Definition one_image_down_env : environment :=
  sample_env morning (gemini_answer script_text) images_second_fails
             later_first.

Definition today_store (c : N) : option counter :=
  Some {| count := c; lastReset := "2024-05-02" |}.

(** ** Vocabulary for runs of several requests *)

(** The count in the store; an empty store counts as 0, which is what
    [getCounterState] makes of it. *)
Definition stored_count (store : option counter) : N :=
  match store with
  | Some s => count s
  | None => 0
  end.

Definition within_limit (store : option counter) : Prop :=
  stored_count store ≤ GLOBAL_DAILY_LIMIT.

(** How many of the requests of a run are admitted. *)
Fixpoint admitted_count (store : option counter)
    (reqs : list (environment * request)) : nat :=
  match reqs with
  | [] => 0
  | (E, event) :: rest =>
      ((if admitted store E event then 1 else 0)
       + admitted_count (store_after store E event) rest)%nat
  end.

(** Whether the character [T] occurs in a string. *)
Fixpoint has_T (s : string) : bool :=
  match s with
  | EmptyString => false
  | String c rest => Ascii.eqb c (Ascii.ascii_of_nat 84) || has_T rest
  end.

(** ** More sample data *)

Definition get_request : request := {| httpMethod := "GET"; body := VNull |}.

Definition options_request : request :=
  {| httpMethod := "OPTIONS"; body := VNull |}.

(** Five requests of one day: a good one, one without [idea], one whose
    body is not JSON, a GET, and a good one while the text service is
    down. *)
Definition mixed_day : list (environment * request) :=
  [(robot_env, post body_robot); (robot_env, post body_no_idea);
   (robot_env, post "{"); (robot_env, get_request);
   (gemini_down_env, post body_robot)].

(** [{"script":[scene1,null,scene3]}] *)
Definition hole_text : string :=
  "{" +:+ quoted "script" +:+ ":[" +:+ scene1_text +:+ ",null,"
  +:+ scene3_text +:+ "]}".

(** [{"script":[]}] *)
Definition empty_script_text : string := "{" +:+ quoted "script" +:+ ":[]}".

(** [robot_env] with another answer of the text service, [text], which
    parses to [parsed]. *)
Definition answering_env (text : string) (parsed : value) : environment :=
  {| now_handler := morning; now_store := morning;
     JSON_parse := λ v,
       match v with
       | VString s => if String.eqb s text then Normal parsed
                      else sample_JSON_parse v
       | _ => sample_JSON_parse v
       end;
     ToString := sample_ToString;
     TypeError_message := λ _ p, "Cannot read properties of undefined";
     ToPrimitive_message := λ _, "Cannot convert object to primitive value";
     fetch_gemini := gemini_answer text;
     fetch_image := images_ok;
     image_latency := later_first |}.

Definition hole_env : environment :=
  answering_env hole_text (VObject [("script", VArray [scene1; VNull; scene3])]).

Definition empty_script_env : environment :=
  answering_env empty_script_text (VObject [("script", VArray [])]).

(** [E] with a [JSON.parse] that also knows [text], which parses to
    [parsed]. *)
Definition with_text (E : environment) (text : string) (parsed : value)
  : environment :=
  {| now_handler := now_handler E; now_store := now_store E;
     JSON_parse := λ v,
       match v with
       | VString s => if String.eqb s text then Normal parsed
                      else JSON_parse E v
       | _ => JSON_parse E v
       end;
     ToString := ToString E;
     TypeError_message := TypeError_message E;
     ToPrimitive_message := ToPrimitive_message E;
     fetch_gemini := fetch_gemini E; fetch_image := fetch_image E;
     image_latency := image_latency E |}.

(** [{"toString":1}]: an object that has no string conversion. *)
Definition stubborn : value := VObject [("toString", VNumber 1%float)].

Definition stubborn_text : string := "{" +:+ quoted "toString" +:+ ":1}".

(** [{"idea":{"toString":1},"duration":30}] *)
Definition body_stubborn_idea : string :=
  "{" +:+ quoted "idea" +:+ ":" +:+ stubborn_text +:+ ","
  +:+ quoted "duration" +:+ ":30}".

Definition stubborn_idea_env : environment :=
  with_text robot_env body_stubborn_idea
    (VObject [("idea", stubborn); ("duration", VNumber 30%float)]).

(** A scene whose description is that object. *)
Definition stubborn_scene : value := VObject [("description", stubborn)].

(** [{"script":[scene1,{"description":{"toString":1}},scene3]}] *)
Definition stubborn_scene_text : string :=
  "{" +:+ quoted "script" +:+ ":[" +:+ scene1_text +:+ ",{"
  +:+ quoted "description" +:+ ":" +:+ stubborn_text +:+ "},"
  +:+ scene3_text +:+ "]}".

Definition stubborn_scene_env : environment :=
  answering_env stubborn_scene_text
    (VObject [("script", VArray [scene1; stubborn_scene; scene3])]).

(** The text service answers 200 with a body that is not JSON. *)
Definition gemini_garbage_env : environment :=
  sample_env morning
    (Resolves {| ok := true; status := 200; response_text := Normal "<html>";
                 response_json := Throw (Error "Unexpected token < in JSON") |})
    images_ok later_first.

(** A computation is stateless when it returns the world it was given
    and its outcome does not depend on it. *)
Definition stateless {A} (m : M A) : Prop :=
  ∀ w w', (m w).1 = (m w').1 ∧ (m w).2 = w.

(** * Properties *)

Ltac run_monad :=
  unfold mbind, M_bind, mret, M_ret, await, throw, try_catch, emit, log in *;
  simpl in *.

(** ** Computations that leave the world alone *)

Lemma stateless_ret {A} (a : A) : stateless (mret a : M A).
Proof. by intros w w'. Qed.

Lemma stateless_await {A} (c : completion A) : stateless (await c).
Proof. by intros w w'. Qed.

Lemma stateless_throw {A} (e : error) : stateless (throw e : M A).
Proof. by intros w w'. Qed.

Lemma stateless_bind {A B} (m : M A) (k : A → M B) :
  stateless m → (∀ a, stateless (k a)) → stateless (m ≫= k).
Proof.
  intros Hm Hk w w'. unfold mbind, M_bind.
  destruct (Hm w w') as [H1 H2]. destruct (Hm w' w') as [_ H3].
  destruct (m w) as [[a|e] w1], (m w') as [[a'|e'] w1'];
    simpl in *; simplify_eq; try done.
  apply Hk.
Qed.

Lemma stateless_try_catch {A} (m : M A) (h : error → M A) :
  stateless m → (∀ e, stateless (h e)) → stateless (try_catch m h).
Proof.
  intros Hm Hh w w'. unfold try_catch.
  destruct (Hm w w') as [H1 H2]. destruct (Hm w' w') as [_ H3].
  destruct (m w) as [[a|e] w1], (m w') as [[a'|e'] w1'];
    simpl in *; simplify_eq; try done.
  apply Hh.
Qed.

Lemma stateless_run {A} (m : M A) w w' :
  stateless m → m w = ((m w').1, w).
Proof.
  intros Hm. destruct (Hm w w') as [H1 H2].
  destruct (m w); simpl in *. congruence.
Qed.

Ltac stateless :=
  repeat first
    [ apply stateless_ret | apply stateless_await | apply stateless_throw
    | apply stateless_try_catch | apply stateless_bind
    | intro | case_match ].

Lemma bind_emit {B} (e : effect) (k : unit → M B) w :
  (emit e ≫= k) w = k () (log e w).
Proof. reflexivity. Qed.

(** ** [generateScript] *)

Lemma bind_await_Normal {A B} (a : A) (k : A → M B) w :
  (await (Normal a) ≫= k) w = k a w.
Proof. reflexivity. Qed.

Lemma bind_await_Throw {A B} (e : error) (k : A → M B) w :
  (await (Throw e) ≫= k) w = (Throw e, w).
Proof. reflexivity. Qed.

Lemma script_prompt_convertible E idea duration :
  convertible duration = true → convertible idea = true →
  script_prompt E idea duration
  = Normal (prompt_text (ToString E idea) (ToString E duration)).
Proof. intros Hd Hi. unfold script_prompt, template. by rewrite Hd, Hi. Qed.

Lemma script_prompt_not_convertible E idea duration :
  convertible duration && convertible idea = false →
  script_prompt E idea duration
  = Throw (Error (ToPrimitive_message E
                    (if convertible duration then idea else duration))).
Proof.
  unfold script_prompt, template.
  destruct (convertible duration); simpl; [|done]. by intros ->.
Qed.

(** With a prompt, [generateScript] sends its one request and what
    follows depends on the answer alone. *)
Lemma generateScript_run E idea duration w :
  convertible duration = true → convertible idea = true →
  generateScript E idea duration w
  = (script_outcome E, log (FetchGemini idea duration) w).
Proof.
  intros Hd Hi. unfold script_outcome, generateScript.
  rewrite (script_prompt_convertible E idea duration Hd Hi).
  rewrite (script_prompt_convertible E VUndefined VUndefined eq_refl eq_refl).
  rewrite !bind_await_Normal, !bind_emit.
  apply stateless_run. stateless.
Qed.

(** Without one, it throws before anything is sent. *)
Lemma generateScript_no_prompt E idea duration w :
  convertible duration && convertible idea = false →
  generateScript E idea duration w
  = (Throw (Error (ToPrimitive_message E
                     (if convertible duration then idea else duration))),
     w).
Proof.
  intros Hconv. unfold generateScript.
  by rewrite (script_prompt_not_convertible E idea duration Hconv).
Qed.

Lemma generateScript_outcome E idea duration w :
  (generateScript E idea duration w).1 = script_for E idea duration.
Proof.
  unfold script_for.
  destruct (convertible duration && convertible idea) eqn:Hconv.
  - apply andb_true_iff in Hconv as [Hd Hi].
    by rewrite !generateScript_run.
  - by rewrite !generateScript_no_prompt.
Qed.

Lemma generateScript_effects E idea duration w :
  (generateScript E idea duration w).2
  = {| counterState := counterState w;
       calls := calls w ++ script_calls idea duration |}.
Proof.
  unfold script_calls.
  destruct (convertible duration && convertible idea) eqn:Hconv.
  - apply andb_true_iff in Hconv as [Hd Hi].
    by rewrite generateScript_run.
  - rewrite generateScript_no_prompt by done. simpl.
    rewrite app_nil_r. by destruct w.
Qed.

Lemma script_calls_upstream idea duration :
  forallb is_upstream (script_calls idea duration) = true.
Proof. unfold script_calls. by destruct (_ && _). Qed.

Lemma script_for_convertible E idea duration :
  convertible duration = true → convertible idea = true →
  script_for E idea duration = script_outcome E.
Proof. intros Hd Hi. unfold script_for. by rewrite generateScript_run. Qed.

Lemma script_for_Normal_inv E idea duration script :
  script_for E idea duration = Normal script →
  convertible duration = true ∧ convertible idea = true
  ∧ script_outcome E = Normal script.
Proof.
  unfold script_for.
  destruct (convertible duration && convertible idea) eqn:Hconv.
  - apply andb_true_iff in Hconv as [Hd Hi].
    by rewrite generateScript_run.
  - by rewrite generateScript_no_prompt.
Qed.

(** ** [generateImages] *)

Lemma catch_failed_scene_image E i scene :
  catch_failed (image_pipeline E i scene) = Normal (scene_image E i scene).
Proof. unfold scene_image. by destruct (image_pipeline E i scene). Qed.

Lemma Get_description E scene :
  nullish scene = false → Get E scene Fdescription = Normal (prompt_of scene).
Proof. by destruct scene. Qed.

Lemma promptable_inv scene :
  promptable scene = true →
  nullish scene = false ∧ convertible (prompt_of scene) = true.
Proof.
  unfold promptable. intros [Hscene Hprompt]%andb_true_iff.
  by apply negb_true_iff in Hscene.
Qed.

Lemma template_convertible E v :
  convertible v = true → template E v = Normal (ToString E v).
Proof. unfold template. by intros ->. Qed.

Lemma map_scenes_run E script : ∀ i w,
  Forall (λ scene, promptable scene = true) script →
  map_scenes E i script w
  = (Normal (imap (λ k scene, Normal (scene_image E (i + k) scene)) script),
     {| counterState := counterState w;
        calls := calls w ++ image_calls i script |}).
Proof.
  induction script as [|scene rest IH]; intros i w Hwf.
  - simpl. unfold mret, M_ret, image_calls. simpl.
    rewrite app_nil_r. by destruct w.
  - apply Forall_cons in Hwf as [[Hscene Hprompt]%promptable_inv Hrest].
    cbn [map_scenes]. rewrite (Get_description _ _ Hscene).
    rewrite bind_await_Normal, (template_convertible _ _ Hprompt).
    rewrite bind_await_Normal, bind_emit.
    unfold mbind, M_bind. rewrite (IH (S i) _ Hrest). unfold mret, M_ret.
    rewrite catch_failed_scene_image. unfold image_calls. cbn [imap log].
    f_equal.
    + f_equal. f_equal; [by rewrite Nat.add_0_r|].
      apply imap_ext. intros k x _. simpl. f_equal. f_equal. lia.
    + simpl. f_equal. rewrite <- app_assoc. simpl. f_equal.
      rewrite Nat.add_0_r. f_equal.
      apply imap_ext. intros k x _. simpl. f_equal. lia.
Qed.

(** [Promise.all] over promises that all fulfil: whatever the order in
    which they settle, slot [j] ends up holding the value of promise [j]
    if [j] has settled, and what it held before otherwise. *)
Lemma Promise_all_loop_fulfilled (vs : list value) (order : list nat) :
  ∀ values : list value,
  length values = length vs →
  ∃ values' : list value,
    Promise_all_loop order (Normal <$> vs) values = Normal values'
    ∧ length values' = length vs
    ∧ ∀ j, values' !! j
           = if decide (j ∈ order) then vs !! j else values !! j.
Proof.
  induction order as [|i rest IH]; intros values Hlen.
  - exists values. split_and!; [done..|].
    intros j. case_decide as Hj; [|done]. by apply elem_of_nil in Hj.
  - cbn [Promise_all_loop]. rewrite list_lookup_fmap.
    destruct (vs !! i) as [v|] eqn:Hi; simpl.
    + destruct (IH (<[i:=v]> values)) as (values' & Hrun & Hlen' & Hlook).
      { by rewrite length_insert. }
      exists values'. split_and!; [done..|].
      intros j. rewrite Hlook.
      destruct (decide (j ∈ rest)) as [Hin|Hnotin].
      * rewrite decide_True; [done|]. by apply elem_of_cons; right.
      * destruct (decide (j = i)) as [->|Hne].
        -- rewrite decide_True by (apply elem_of_cons; by left).
           rewrite list_lookup_insert_eq; [done|].
           rewrite Hlen. by eapply lookup_lt_Some.
        -- rewrite decide_False.
           ++ by rewrite list_lookup_insert_ne.
           ++ intros [?|?]%elem_of_cons; done.
    + destruct (IH values Hlen) as (values' & Hrun & Hlen' & Hlook).
      exists values'. split_and!; [done..|].
      intros j. rewrite Hlook.
      destruct (decide (j ∈ rest)) as [Hin|Hnotin].
      * rewrite decide_True; [done|]. by apply elem_of_cons; right.
      * destruct (decide (j = i)) as [->|Hne].
        -- rewrite decide_True by (apply elem_of_cons; by left).
           rewrite Hi. apply lookup_ge_None. rewrite Hlen.
           by apply lookup_ge_None.
        -- rewrite decide_False; [done|].
           intros [?|?]%elem_of_cons; done.
Qed.

Lemma completion_order_Permutation E k : completion_order E k ≡ₚ seq 0 k.
Proof. apply merge_sort_Permutation. Qed.

Lemma Promise_all_fulfilled E (vs : list value) :
  Promise_all E (Normal <$> vs) = Normal vs.
Proof.
  unfold Promise_all. rewrite length_fmap.
  destruct (Promise_all_loop_fulfilled vs (completion_order E (length vs))
              (replicate (length vs) VUndefined))
    as (values' & -> & Hlen & Hlook).
  { apply length_replicate. }
  f_equal. apply list_eq. intros j. rewrite Hlook.
  case_decide as Hj; [done|].
  rewrite completion_order_Permutation, elem_of_seq in Hj.
  assert (length vs ≤ j)%nat as Hge by lia.
  rewrite (proj2 (lookup_ge_None vs j) Hge).
  apply lookup_ge_None. by rewrite length_replicate.
Qed.

Lemma generateImages_run E script w :
  Forall (λ scene, promptable scene = true) script →
  generateImages E script w
  = (Normal (imap (scene_image E) script),
     {| counterState := counterState w;
        calls := calls w ++ image_calls 0 script |}).
Proof.
  intros Hwf. unfold generateImages, mbind, M_bind.
  rewrite (map_scenes_run E script 0 w Hwf). unfold await.
  replace (imap (λ k scene, Normal (scene_image E (0 + k) scene)) script)
    with (Normal <$> imap (scene_image E) script).
  - by rewrite Promise_all_fulfilled.
  - by rewrite fmap_imap.
Qed.

(** The image stage only logs calls to the image service and leaves the
    store alone, whatever the script. *)
Lemma map_scenes_effects E script : ∀ i w,
  ∃ l, (map_scenes E i script w).2
       = {| counterState := counterState w; calls := calls w ++ l |}
       ∧ forallb is_upstream l = true.
Proof.
  induction script as [|scene rest IH]; intros i w.
  - exists []. simpl. rewrite app_nil_r. by destruct w.
  - cbn [map_scenes].
    destruct (Get E scene Fdescription) as [prompt|e].
    2: { exists []. rewrite bind_await_Throw. simpl. rewrite app_nil_r.
         by destruct w. }
    rewrite bind_await_Normal. destruct (template E prompt) as [logged|e].
    2: { exists []. rewrite bind_await_Throw. simpl. rewrite app_nil_r.
         by destruct w. }
    rewrite bind_await_Normal, bind_emit. unfold mbind, M_bind.
    destruct (IH (S i) (log (FetchImage i prompt) w)) as (l & Hl & Hup).
    exists (FetchImage i prompt :: l). split; [|done].
    destruct (map_scenes E (S i) rest _) as [[ps|e] w']; simpl in *;
      subst w'; by rewrite <- app_assoc.
Qed.

Lemma generateImages_effects E script w :
  ∃ l, (generateImages E script w).2
       = {| counterState := counterState w; calls := calls w ++ l |}
       ∧ forallb is_upstream l = true.
Proof.
  destruct (map_scenes_effects E script 0 w) as (l & Hl & Hup).
  exists l. split; [|done]. unfold generateImages, mbind, M_bind, await.
  by destruct (map_scenes E 0 script w) as [[ps|e] w'].
Qed.

(** ** The paths through [handler] *)

Section Paths.
Context (E : environment) (store : option counter) (event : request).

Lemma serve_OPTIONS :
  httpMethod event = "OPTIONS" →
  serve store E event
  = (Normal {| statusCode := 204; headers := cors_headers;
               response_body := None |},
     {| counterState := store; calls := [] |}).
Proof. intros Hm. unfold serve, handler. by rewrite Hm. Qed.

Lemma serve_other_method :
  httpMethod event ≠ "OPTIONS" → httpMethod event ≠ "POST" →
  serve store E event
  = (Normal (reply 405 (ErrorBody msg_method)),
     {| counterState := store; calls := [] |}).
Proof.
  intros H1%String.eqb_neq H2%String.eqb_neq.
  unfold serve, handler. by rewrite H1, H2.
Qed.

Context (HPOST : httpMethod event = "POST").

Lemma serve_rejected :
  GLOBAL_DAILY_LIMIT ≤ count (observed_state E store) →
  serve store E event
  = (Normal (reply 429 (ErrorBody msg_limit)), after_read E store).
Proof.
  intros Hfull%N.leb_le. unfold serve, handler. rewrite HPOST.
  unfold observed_state in Hfull. run_monad. by rewrite Hfull.
Qed.

Context (Hroom : count (observed_state E store) < GLOBAL_DAILY_LIMIT).

Lemma serve_parse_throws e :
  JSON_parse E (body event) = Throw e →
  serve store E event
  = (Normal (reply 500 (ErrorBody (error_text e))), after_read E store).
Proof.
  intros Hparse. apply N.leb_gt in Hroom.
  unfold serve, handler. rewrite HPOST.
  unfold observed_state in Hroom. run_monad. by rewrite Hroom, Hparse.
Qed.

Lemma serve_destructure_throws parsed e :
  JSON_parse E (body event) = Normal parsed →
  destructure E parsed = Throw e →
  serve store E event
  = (Normal (reply 500 (ErrorBody (error_text e))), after_read E store).
Proof.
  intros Hparse Hfields. apply N.leb_gt in Hroom.
  unfold serve, handler. rewrite HPOST.
  unfold observed_state in Hroom. run_monad.
  by rewrite Hroom, Hparse, Hfields.
Qed.

Lemma serve_invalid parsed idea duration :
  JSON_parse E (body event) = Normal parsed →
  destructure E parsed = Normal (idea, duration) →
  truthy idea && truthy duration = false →
  serve store E event
  = (Normal (reply 400 (ErrorBody msg_required)), after_read E store).
Proof.
  intros Hparse Hfields Hfalsy. apply N.leb_gt in Hroom.
  unfold serve, handler. rewrite HPOST.
  unfold observed_state in Hroom. run_monad.
  rewrite Hroom, Hparse, Hfields. simpl.
  rewrite <- negb_andb, Hfalsy. done.
Qed.

Lemma serve_admitted parsed idea duration :
  JSON_parse E (body event) = Normal parsed →
  destructure E parsed = Normal (idea, duration) →
  truthy idea = true → truthy duration = true →
  serve store E event = admitted_outcome E store idea duration.
Proof.
  intros Hparse Hfields Hidea Hduration. apply N.leb_gt in Hroom.
  unfold serve, handler, admitted_outcome. rewrite HPOST.
  unfold incremented, observed_state in *. run_monad.
  rewrite Hroom, Hparse, Hfields. simpl. rewrite Hidea, Hduration. simpl.
  destruct (generateScript E idea duration _) as [[script|e] w1]; [|done].
  by destruct (generateImages _ _ _) as [[images|e] w2].
Qed.
End Paths.

(** Every run takes one of the paths. *)
Lemma serve_served E store event : served E store event (serve store E event).
Proof.
  destruct (decide (httpMethod event = "OPTIONS")) as [Hopt|Hopt].
  { rewrite serve_OPTIONS by done. by constructor. }
  destruct (decide (httpMethod event = "POST")) as [HPOST|Hother].
  2: { rewrite serve_other_method by done. by constructor. }
  destruct (N.lt_ge_cases (count (observed_state E store)) GLOBAL_DAILY_LIMIT)
    as [Hroom|Hfull].
  2: { rewrite serve_rejected by done. by constructor. }
  destruct (JSON_parse E (body event)) as [parsed|e] eqn:Hparse.
  2: { rewrite (serve_parse_throws _ _ _ HPOST Hroom e) by done.
       by constructor. }
  destruct (destructure E parsed) as [[idea duration]|e] eqn:Hfields.
  2: { rewrite (serve_destructure_throws _ _ _ HPOST Hroom parsed e) by done.
       by econstructor. }
  destruct (truthy idea && truthy duration) eqn:Hvalid.
  2: { rewrite (serve_invalid _ _ _ HPOST Hroom parsed idea duration) by done.
       by econstructor. }
  apply andb_true_iff in Hvalid as [Hidea Hduration].
  rewrite (serve_admitted _ _ _ HPOST Hroom parsed idea duration) by done.
  by econstructor.
Qed.

(** ** Admitted requests *)

(** The run of an admitted request writes the incremented counter once, as
    the first of its calls; every later call goes upstream, the store
    keeps the increment whatever happens there, and the answer is 200 or
    500. *)
Lemma admitted_outcome_spec E store idea duration :
  ∃ r rest,
    admitted_outcome E store idea duration
    = (Normal r,
       {| counterState := Some (incremented E store);
          calls := UpdateCounterState (incremented E store) :: rest |})
    ∧ forallb is_upstream rest = true
    ∧ statusCode r ≠ 429%Z.
Proof.
  unfold admitted_outcome. cbv zeta.
  pose proof (generateScript_effects E idea duration
                {| counterState := Some (incremented E store);
                   calls := [UpdateCounterState (incremented E store)] |})
    as Hw1.
  pose proof (script_calls_upstream idea duration) as Hup1.
  destruct (generateScript E idea duration _) as [[script|e] w1];
    simpl in Hw1; subst w1.
  - destruct (generateImages_effects E script
                {| counterState := Some (incremented E store);
                   calls := UpdateCounterState (incremented E store)
                              :: script_calls idea duration |})
      as (l & Hl & Hup).
    destruct (generateImages E script _) as [[images|e] w2];
      simpl in Hl; subst w2; simpl;
      eexists _, (script_calls idea duration ++ l);
      (split_and!; [done| |done]); rewrite forallb_app; by rewrite Hup1, Hup.
  - eexists _, (script_calls idea duration). by split_and!.
Qed.

(** The handler answers every request: nothing escapes as an exception. *)
Lemma handler_always_answers store E event :
  ∃ r, (serve store E event).1 = Normal r.
Proof.
  destruct (serve_served E store event)
    as [| | | | | |parsed idea duration _ _ _ _ _ _]; try by eexists.
  destruct (admitted_outcome_spec E store idea duration)
    as (r & rest & -> & _ & _).
  by exists r.
Qed.

Lemma admitted_inv store E event :
  admitted store E event = true →
  httpMethod event = "POST"
  ∧ count (observed_state E store) < GLOBAL_DAILY_LIMIT
  ∧ ∃ parsed idea duration,
      JSON_parse E (body event) = Normal parsed
      ∧ destructure E parsed = Normal (idea, duration)
      ∧ truthy idea = true ∧ truthy duration = true
      ∧ serve store E event = admitted_outcome E store idea duration.
Proof.
  unfold admitted, calls_of.
  destruct (serve_served E store event)
    as [| | | | | |parsed idea duration HPOST Hroom Hparse Hfields
                   Hidea Hduration]; intros Hadm; try done.
  split_and!; [done..|]. by exists parsed, idea, duration.
Qed.

Lemma admitted_run store E event :
  admitted store E event = true →
  ∃ rest,
    calls_of store E event = UpdateCounterState (incremented E store) :: rest
    ∧ forallb is_upstream rest = true
    ∧ store_after store E event = Some (incremented E store).
Proof.
  intros (_ & _ & parsed & idea & duration & _ & _ & _ & _ & Hrun)%admitted_inv.
  unfold calls_of, store_after. rewrite Hrun.
  destruct (admitted_outcome_spec E store idea duration)
    as (r & rest & -> & Hup & _).
  by exists rest.
Qed.

Lemma admitted_fields store E event :
  admitted store E event = true →
  ∃ idea duration,
    request_fields E event = Normal (idea, duration)
    ∧ serve store E event = admitted_outcome E store idea duration.
Proof.
  intros (_ & _ & parsed & idea & duration & Hparse & Hfields & _ & _ & Hrun)
         %admitted_inv.
  exists idea, duration. split; [|done].
  unfold request_fields. by rewrite Hparse.
Qed.

Lemma admitted_outcome_script_fails E store idea duration e :
  script_for E idea duration = Throw e →
  admitted_outcome E store idea duration
  = (Normal (reply 500 (ErrorBody (error_text e))),
     {| counterState := Some (incremented E store);
        calls := UpdateCounterState (incremented E store)
                   :: script_calls idea duration |}).
Proof.
  intros Hscript. unfold admitted_outcome. cbv zeta.
  pose proof (generateScript_outcome E idea duration
                {| counterState := Some (incremented E store);
                   calls := [UpdateCounterState (incremented E store)] |})
    as Hout.
  pose proof (generateScript_effects E idea duration
                {| counterState := Some (incremented E store);
                   calls := [UpdateCounterState (incremented E store)] |})
    as Hw1.
  destruct (generateScript E idea duration _) as [c w1].
  simpl in Hout, Hw1. subst c w1. by rewrite Hscript.
Qed.

Lemma admitted_outcome_script_returns E store idea duration script :
  script_for E idea duration = Normal script →
  admitted_outcome E store idea duration
  = match generateImages E script
            {| counterState := Some (incremented E store);
               calls := [UpdateCounterState (incremented E store);
                         FetchGemini idea duration] |} with
    | (Normal images, w2) =>
        (Normal (reply 200 (ResultBody script images)), w2)
    | (Throw e, w2) => (Normal (reply 500 (ErrorBody (error_text e))), w2)
    end.
Proof.
  intros Hscript.
  destruct (script_for_Normal_inv _ _ _ _ Hscript) as (Hd & Hi & Hout).
  unfold admitted_outcome. cbv zeta.
  rewrite generateScript_run by done. by rewrite Hout.
Qed.

(** A request that is not admitted makes no call, and leaves in the store
    what [getCounterState] found or put there. *)
Lemma not_admitted_run store E event :
  admitted store E event = false →
  calls_of store E event = []
  ∧ (store_after store E event = store
     ∨ store_after store E event = Some (default (initial_counter E) store)).
Proof.
  unfold admitted, calls_of, store_after.
  destruct (serve_served E store event)
    as [| | | | | |parsed idea duration _ _ _ _ _ _]; intros Hnot;
    try (split; [done|]; (by left) || (by right)).
  destruct (admitted_outcome_spec E store idea duration)
    as (r & rest & Hrun & _ & _).
  by rewrite Hrun in Hnot.
Qed.

(** Only a full counter is answered 429. *)
Lemma answer_429_inv store E event r :
  (serve store E event).1 = Normal r → statusCode r = 429%Z →
  GLOBAL_DAILY_LIMIT ≤ count (observed_state E store).
Proof.
  destruct (serve_served E store event)
    as [| | | | | |parsed idea duration _ _ _ _ _ _]; intros Hr Hcode;
    simpl in Hr; simplify_eq; try done.
  destruct (admitted_outcome_spec E store idea duration)
    as (r' & rest & Hrun & _ & Hcode').
  rewrite Hrun in Hr. simpl in Hr. congruence.
Qed.

Lemma observed_same_day E c d :
  before_T (now_handler E) = d →
  observed_state E (Some {| count := c; lastReset := d |})
  = {| count := c; lastReset := d |}.
Proof.
  intros <-. unfold observed_state, reset_if_new_day. simpl.
  by rewrite String.eqb_refl.
Qed.

Lemma serve_all_admitted d reqs : ∀ c,
  Forall (λ r : environment * request, before_T (now_handler r.1) = d) reqs →
  all_admitted (Some {| count := c; lastReset := d |}) reqs = true →
  serve_all (Some {| count := c; lastReset := d |}) reqs
  = Some {| count := c + N.of_nat (length reqs); lastReset := d |}.
Proof.
  induction reqs as [|[E event] rest IH]; intros c Hday Hadm.
  - simpl. do 2 f_equal. lia.
  - apply Forall_cons in Hday as [HE Hrest]. simpl in HE.
    cbn [all_admitted] in Hadm. apply andb_true_iff in Hadm as [Hfirst Hadm].
    destruct (admitted_run _ _ _ Hfirst) as (calls & _ & _ & Hstore).
    cbn [serve_all]. rewrite Hstore in Hadm |- *.
    unfold incremented in *. rewrite (observed_same_day E c d HE) in *.
    simpl in *. rewrite (IH (c + 1) Hrest Hadm).
    do 2 f_equal. lia.
Qed.

Lemma all_admitted_take store reqs : ∀ k,
  all_admitted store reqs = true → all_admitted store (take k reqs) = true.
Proof.
  revert store. induction reqs as [|[E event] rest IH]; intros store k Hadm.
  - by destruct k.
  - destruct k as [|k]; [done|]. cbn [take all_admitted] in *.
    apply andb_true_iff in Hadm as [-> Hadm]. by apply IH.
Qed.

Lemma all_admitted_lookup reqs : ∀ store k E event,
  all_admitted store reqs = true → reqs !! k = Some (E, event) →
  admitted (serve_all store (take k reqs)) E event = true.
Proof.
  induction reqs as [|[E0 event0] rest IH]; intros store k E event Hadm Hk.
  - done.
  - cbn [all_admitted] in Hadm. apply andb_true_iff in Hadm as [Hfirst Hadm].
    destruct k as [|k]; simpl in *.
    + by simplify_eq.
    + by apply IH.
Qed.

Example falsy_numbers :
  truthy (VNumber 0%float) = false ∧ truthy (VNumber (-0)%float) = false
  ∧ truthy (VNumber PrimFloat.nan) = false ∧ truthy (VNumber 30%float) = true.
Proof. by vm_compute. Qed.

(** A POST without a body: [event.body] is [null], [JSON.parse] returns
    [null], and destructuring it throws. *)
Example null_body :
  serve (today_store 10) robot_env {| httpMethod := "POST"; body := VNull |}
  = (Normal (reply 500 (ErrorBody "Cannot read properties of undefined")),
     {| counterState := today_store 10; calls := [] |}).
Proof. vm_compute. reflexivity. Qed.

(** The end-to-end example of the specification: the counter goes from 10
    to 11 and the three images line up with the three scenes, although
    they settled in the reverse order. *)
Example robot_request :
  serve (today_store 10) robot_env (post body_robot)
  = (Normal (reply 200 (ResultBody [scene1; scene2; scene3]
                          [image_url 0; image_url 1; image_url 2])),
     {| counterState := today_store 11;
        calls := [UpdateCounterState
                    {| count := 11; lastReset := "2024-05-02" |};
                  FetchGemini (VString "a robot learns to paint")
                              (VNumber 30%float);
                  FetchImage 0 (VString "A robot facing an empty canvas");
                  FetchImage 1 (VString "A robot arm painting clumsy lines");
                  FetchImage 2 (VString "A robot beside a colourful painting")]
     |}).
Proof. vm_compute. reflexivity. Qed.

Example robot_images_settle_last_first :
  completion_order robot_env 3 = [2; 1; 0]%nat.
Proof. vm_compute. reflexivity. Qed.

(** ** Admission *)

(** C1 (admission monotonicity).  Take requests that all fall on the UTC
    day [d] and are all admitted, starting from the stored counter
    [{ count: c, lastReset: d }].  After the first [k] of them the stored
    counter is [c + k], so after all [N] it is [c + N]; the [k]-th request
    (from 0) writes [c + k + 1] as the first of its calls, before anything
    goes upstream, and writes nothing else; and once [c + N] is the daily
    limit, a further request of that day is answered 429 and leaves the
    store as it is. *)
Theorem admission_monotonicity (d : string) (c : N)
    (reqs : list (environment * request)) :
  Forall (λ r : environment * request, before_T (now_handler r.1) = d) reqs →
  all_admitted (Some {| count := c; lastReset := d |}) reqs = true →
  (∀ k : nat, (k ≤ length reqs)%nat →
     serve_all (Some {| count := c; lastReset := d |}) (take k reqs)
     = Some {| count := c + N.of_nat k; lastReset := d |})
  ∧ (∀ (k : nat) E event, reqs !! k = Some (E, event) →
       ∃ rest,
         calls_of (serve_all (Some {| count := c; lastReset := d |})
                             (take k reqs)) E event
         = UpdateCounterState {| count := c + N.of_nat k + 1; lastReset := d |}
             :: rest
         ∧ forallb is_upstream rest = true)
  ∧ (c + N.of_nat (length reqs) = GLOBAL_DAILY_LIMIT →
     ∀ E event,
       httpMethod event = "POST" → before_T (now_handler E) = d →
       (serve (serve_all (Some {| count := c; lastReset := d |}) reqs)
              E event).1
       = Normal (reply 429 (ErrorBody msg_limit))
       ∧ store_after (serve_all (Some {| count := c; lastReset := d |}) reqs)
                     E event
         = serve_all (Some {| count := c; lastReset := d |}) reqs).
Proof.
  intros Hday Hadm.
  set (start := Some {| count := c; lastReset := d |}) in *.
  assert (∀ k : nat, (k ≤ length reqs)%nat →
            serve_all start (take k reqs)
            = Some {| count := c + N.of_nat k; lastReset := d |}) as Hprefix.
  { intros k Hk. unfold start.
    rewrite (serve_all_admitted d (take k reqs) c).
    - rewrite length_take. do 3 f_equal. lia.
    - by apply Forall_take.
    - by apply all_admitted_take. }
  split_and!.
  - done.
  - intros k E event Hlook.
    pose proof (all_admitted_lookup reqs start k E event Hadm Hlook) as Hk.
    destruct (admitted_run _ _ _ Hk) as (rest & Hcalls & Hup & _).
    exists rest. split; [|done]. rewrite Hcalls. do 2 f_equal.
    rewrite Hprefix by (apply lookup_lt_Some in Hlook; lia).
    unfold incremented. rewrite observed_same_day; [done|].
    by apply (Forall_lookup_1 _ _ _ _ Hday Hlook).
  - intros Hlimit E event HPOST HE.
    pose proof (Hprefix (length reqs) (Nat.le_refl _)) as Hall.
    rewrite firstn_all in Hall. rewrite Hall.
    unfold store_after. rewrite serve_rejected; [done..|].
    rewrite observed_same_day by done. simpl. lia.
Qed.

Lemma admission_monotonicity_witness :
  serve_all (today_store 48)
            [(robot_env, post body_robot); (robot_env, post body_robot)]
  = today_store 50
  ∧ (serve (today_store 50) robot_env (post body_robot)).1
    = Normal (reply 429 (ErrorBody msg_limit)).
Proof.
  destruct (admission_monotonicity "2024-05-02" 48
              [(robot_env, post body_robot); (robot_env, post body_robot)])
    as (Hcount & _ & Hnext).
  - repeat constructor.
  - vm_compute. reflexivity.
  - split.
    + apply (Hcount 2%nat). simpl. lia.
    + apply (Hnext eq_refl robot_env (post body_robot)); reflexivity.
Defined.

(** C2 (rejection is mutation-free).  When the state the limit check looks
    at has [count >= GLOBAL_DAILY_LIMIT], the run writes nothing: the
    store is afterwards exactly what it was and no call is made; and the
    answer to a POST is 429 with an [{ error }] body. *)
Theorem rejection_is_mutation_free store E event :
  GLOBAL_DAILY_LIMIT ≤ count (observed_state E store) →
  store_after store E event = store
  ∧ calls_of store E event = []
  ∧ (httpMethod event = "POST" →
     (serve store E event).1 = Normal (reply 429 (ErrorBody msg_limit))).
Proof.
  intros Hfull.
  assert (Some (default (initial_counter E) store) = store) as Hstore.
  { destruct store as [s|]; [done|].
    unfold observed_state, reset_if_new_day, GLOBAL_DAILY_LIMIT in Hfull.
    simpl in Hfull. destruct (negb _); simpl in Hfull; lia. }
  unfold store_after, calls_of.
  destruct (decide (httpMethod event = "OPTIONS")) as [Hopt|Hopt].
  { rewrite serve_OPTIONS by done. split_and!; [done..|].
    intros HPOST. by rewrite HPOST in Hopt. }
  destruct (decide (httpMethod event = "POST")) as [HPOST|Hother].
  - rewrite serve_rejected by done. by split_and!.
  - rewrite serve_other_method by done. by split_and!.
Qed.

Lemma rejection_is_mutation_free_witness :
  store_after (today_store 50) robot_env (post body_robot) = today_store 50
  ∧ (serve (today_store 50) robot_env (post body_robot)).1
    = Normal (reply 429 (ErrorBody msg_limit)).
Proof.
  destruct (rejection_is_mutation_free (today_store 50) robot_env
              (post body_robot)) as (Hstore & _ & Hanswer).
  - vm_compute. discriminate.
  - split; [exact Hstore | exact (Hanswer eq_refl)].
Defined.

(** C3 (lazy day-boundary reset).  When the stored [lastReset] is not the
    UTC date of the request, however far apart the two are and whatever
    the stored count, the limit check looks at [{ count: 0, lastReset:
    today }]; the request is therefore never answered 429, and if it is
    admitted the store becomes [{ count: 1, lastReset: today }].  Nothing
    but a request performs the reset: one that is not admitted leaves the
    stale state in the store for the next to reset again. *)
Theorem lazy_day_reset (stored : counter) E event :
  lastReset stored ≠ before_T (now_handler E) →
  observed_state E (Some stored)
  = {| count := 0; lastReset := before_T (now_handler E) |}
  ∧ (∀ r, (serve (Some stored) E event).1 = Normal r → statusCode r ≠ 429%Z)
  ∧ (admitted (Some stored) E event = true →
     store_after (Some stored) E event
     = Some {| count := 1; lastReset := before_T (now_handler E) |})
  ∧ (admitted (Some stored) E event = false →
     store_after (Some stored) E event = Some stored).
Proof.
  intros Hstale%String.eqb_neq.
  assert (observed_state E (Some stored)
          = {| count := 0; lastReset := before_T (now_handler E) |}) as Hobs.
  { unfold observed_state, reset_if_new_day. simpl. by rewrite Hstale. }
  split_and!.
  - done.
  - intros r Hr Hcode.
    pose proof (answer_429_inv _ _ _ _ Hr Hcode) as Hfull.
    by rewrite Hobs in Hfull.
  - intros (rest & _ & _ & ->)%admitted_run.
    unfold incremented. by rewrite Hobs.
  - by intros [_ [?|?]]%not_admitted_run.
Qed.

Lemma lazy_day_reset_witness :
  observed_state robot_env (Some {| count := 50; lastReset := "2024-04-25" |})
  = {| count := 0; lastReset := "2024-05-02" |}
  ∧ store_after (Some {| count := 50; lastReset := "2024-04-25" |}) robot_env
                (post body_robot)
    = Some {| count := 1; lastReset := "2024-05-02" |}.
Proof.
  destruct (lazy_day_reset {| count := 50; lastReset := "2024-04-25" |}
              robot_env (post body_robot)) as (Hobs & _ & Hadm & _).
  - vm_compute. discriminate.
  - split; [exact Hobs | exact (Hadm eq_refl)].
Defined.

(** ** Validation *)

(** C4, as the specification states it, fails: the limit check comes
    before the body is even parsed, so with the counter at the limit a
    request without [idea] is answered 429, not 400. *)
Lemma missing_field_with_full_counter_is_429 :
  JSON_parse robot_env (body (post body_no_idea))
  = Normal (VObject [("duration", VNumber 30%float)])
  ∧ Get robot_env (VObject [("duration", VNumber 30%float)]) Fidea
    = Normal VUndefined
  ∧ (serve (today_store 50) robot_env (post body_no_idea)).1
    = Normal (reply 429 (ErrorBody msg_limit))
  ∧ (serve (today_store 50) robot_env (post body_no_idea)).1
    ≠ Normal (reply 400 (ErrorBody msg_required)).
Proof. vm_compute. by split_and!. Qed.

(** C4, amended (admission check precedes validation).  A POST whose body
    parses to a value other than [null] in which [idea] or [duration] is
    missing (or otherwise falsy) is answered 400 with an [{ error }] body
    when the counter is below the limit, and 429 when it is at the limit;
    either way it is not admitted: no counter is written, no call goes
    upstream, and the store holds what [getCounterState] found. *)
Theorem missing_field_is_400_below_limit store E event parsed idea duration :
  httpMethod event = "POST" →
  JSON_parse E (body event) = Normal parsed →
  destructure E parsed = Normal (idea, duration) →
  truthy idea && truthy duration = false →
  (count (observed_state E store) < GLOBAL_DAILY_LIMIT →
   (serve store E event).1 = Normal (reply 400 (ErrorBody msg_required)))
  ∧ (GLOBAL_DAILY_LIMIT ≤ count (observed_state E store) →
     (serve store E event).1 = Normal (reply 429 (ErrorBody msg_limit)))
  ∧ admitted store E event = false
  ∧ calls_of store E event = []
  ∧ store_after store E event = Some (default (initial_counter E) store).
Proof.
  intros HPOST Hparse Hfields Hfalsy.
  unfold admitted, calls_of, store_after.
  destruct (N.lt_ge_cases (count (observed_state E store)) GLOBAL_DAILY_LIMIT)
    as [Hroom|Hfull].
  - rewrite (serve_invalid _ _ _ HPOST Hroom parsed idea duration) by done.
    split_and!; try done. lia.
  - rewrite serve_rejected by done. split_and!; try done. lia.
Qed.

Lemma missing_field_is_400_below_limit_witness :
  (serve (today_store 10) robot_env (post body_no_idea)).1
  = Normal (reply 400 (ErrorBody msg_required))
  ∧ store_after (today_store 10) robot_env (post body_no_idea)
    = today_store 10.
Proof.
  destruct (missing_field_is_400_below_limit (today_store 10) robot_env
              (post body_no_idea) (VObject [("duration", VNumber 30%float)])
              VUndefined (VNumber 30%float))
    as (H400 & _ & _ & _ & Hstore); try reflexivity.
  split; [apply H400; reflexivity | exact Hstore].
Defined.



(** C10 (an unparseable body maps to 500).  When [JSON.parse] throws on
    the body of a POST and the counter is below the limit, the error
    reaches the generic catch: the answer is 500 with an [{ error }] body
    (not 400), nothing was written or called, and the store holds what
    [getCounterState] found -- the stored state itself if there was one. *)
Theorem unparseable_body_is_500 store E event e :
  httpMethod event = "POST" →
  count (observed_state E store) < GLOBAL_DAILY_LIMIT →
  JSON_parse E (body event) = Throw e →
  (serve store E event).1 = Normal (reply 500 (ErrorBody (error_text e)))
  ∧ admitted store E event = false
  ∧ calls_of store E event = []
  ∧ store_after store E event = Some (default (initial_counter E) store)
  ∧ (∀ stored, store = Some stored → store_after store E event = store).
Proof.
  intros HPOST Hroom Hparse. unfold admitted, calls_of, store_after.
  rewrite (serve_parse_throws _ _ _ HPOST Hroom e Hparse).
  split_and!; try done. by intros stored ->.
Qed.

Lemma unparseable_body_is_500_witness :
  (serve (today_store 10) robot_env (post "{")).1
  = Normal (reply 500 (ErrorBody "Unexpected end of JSON input"))
  ∧ store_after (today_store 10) robot_env (post "{") = today_store 10.
Proof.
  destruct (unparseable_body_is_500 (today_store 10) robot_env (post "{")
              (Error "Unexpected end of JSON input"))
    as (Hanswer & _ & _ & Hstore & _); try reflexivity.
  split; [exact Hanswer | exact Hstore].
Defined.

(** ** Downstream failure *)

(** C5 (quota consumed on downstream failure).  An admitted request
    writes the counter, one above the count the limit check saw, exactly
    once and before any upstream call: the write is the first of its
    calls and all the others go upstream.  The store still holds that
    counter when the run is over; and when [generateScript], called with
    the [idea] and [duration] of the body, throws -- be it while it
    builds its prompt, on the request or on the answer -- the answer is
    500 with the message of the error: no rollback. *)
Theorem quota_consumed_on_downstream_failure store E event :
  admitted store E event = true →
  ∃ rest idea duration,
    request_fields E event = Normal (idea, duration)
    ∧ calls_of store E event
      = UpdateCounterState (incremented E store) :: rest
    ∧ forallb is_upstream rest = true
    ∧ count (incremented E store) = count (observed_state E store) + 1
    ∧ store_after store E event = Some (incremented E store)
    ∧ ∀ e, script_for E idea duration = Throw e →
           (serve store E event).1
           = Normal (reply 500 (ErrorBody (error_text e))).
Proof.
  intros Hadm.
  destruct (admitted_run _ _ _ Hadm) as (rest & Hcalls & Hup & Hst).
  destruct (admitted_fields _ _ _ Hadm) as (idea & duration & Hfields & Hrun).
  exists rest, idea, duration. split_and!; try done.
  intros e Hscript. rewrite Hrun.
  by rewrite (admitted_outcome_script_fails E store idea duration e).
Qed.

Lemma quota_consumed_on_downstream_failure_witness :
  store_after (today_store 10) gemini_down_env (post body_robot)
  = today_store 11
  ∧ (serve (today_store 10) gemini_down_env (post body_robot)).1
    = Normal (reply 500 (ErrorBody msg_upstream)).
Proof.
  destruct (quota_consumed_on_downstream_failure (today_store 10)
              gemini_down_env (post body_robot))
    as (rest & idea & duration & Hfields & _ & _ & _ & Hstore & Hanswer).
  - reflexivity.
  - split; [exact Hstore|].
    vm_compute in Hfields. injection Hfields as <- <-.
    exact (Hanswer (Error msg_upstream) eq_refl).
Defined.

(** ** The image fan-out *)

Lemma scene_image_with_latency E latency i scene :
  scene_image (with_latency E latency) i scene = scene_image E i scene.
Proof. reflexivity. Qed.

(** A Scene record is promptable: its description is a string. *)
Lemma Scene_shaped_promptable scene :
  Scene_shaped scene = true → promptable scene = true.
Proof.
  destruct scene as [| | | | | |props]; try done. simpl.
  intros [_ [_ [Hdescription _]%andb_true_iff]%andb_true_iff]%andb_true_iff.
  unfold promptable. simpl.
  by destruct (own_property "description" props).
Qed.

(** C6 (totality and order preservation of the image fan-out).  On a
    script of [K] scenes whose descriptions can be read and logged -- no
    scene is [null] or [undefined] and every description has a string
    conversion, as in every script of Scene records, whose descriptions
    are strings -- [generateImages] returns (it does not throw) an array
    of exactly [K] images in which the image at index [i] is the one
    obtained for scene [i], failed or not; and the array is the same
    whatever the latencies of the calls, that is, in whatever order they
    settle. *)
Theorem generateImages_total_and_ordered E (script : list value) w :
  Forall (λ scene, promptable scene = true) script →
  ∃ images : list value,
    (generateImages E script w).1 = Normal images
    ∧ length images = length script
    ∧ (∀ i scene, script !! i = Some scene →
                  images !! i = Some (scene_image E i scene))
    ∧ (∀ latency,
         (generateImages (with_latency E latency) script w).1 = Normal images).
Proof.
  intros Hwf. exists (imap (scene_image E) script). split_and!.
  - by rewrite generateImages_run.
  - apply length_imap.
  - intros i scene Hi. by rewrite list_lookup_imap, Hi.
  - intros latency. by rewrite generateImages_run.
Qed.

Lemma generateImages_total_and_ordered_witness :
  ∃ images : list value,
    (generateImages one_image_down_env [scene1; scene2; scene3]
       {| counterState := None; calls := [] |}).1 = Normal images
    ∧ length images = 3%nat
    ∧ images !! 1%nat = Some (scene_image one_image_down_env 1 scene2).
Proof.
  destruct (generateImages_total_and_ordered one_image_down_env
              [scene1; scene2; scene3] {| counterState := None; calls := [] |})
    as (images & Hrun & Hlen & Hlook & _).
  - repeat constructor.
  - exists images. split_and!; [exact Hrun | exact Hlen |].
    apply Hlook. reflexivity.
Defined.

Example one_image_down :
  (generateImages one_image_down_env [scene1; scene2; scene3]
     {| counterState := None; calls := [] |}).1
  = Normal [image_url 0; placeholder_failed; image_url 2].
Proof. vm_compute. reflexivity. Qed.

(** A scene that is [null] is outside that domain: reading its
    description throws, after the calls for the scenes before it went
    out. *)
Example generateImages_null_scene :
  generateImages robot_env [scene1; VNull]
                 {| counterState := None; calls := [] |}
  = (Throw (Error "Cannot read properties of undefined"),
     {| counterState := None;
        calls := [FetchImage 0 (VString "A robot facing an empty canvas")] |}).
Proof. vm_compute. reflexivity. Qed.

(** So is a scene whose description has no string conversion: the log
    line throws before the request of that scene is issued. *)
Example generateImages_stubborn_scene :
  generateImages robot_env [scene1; stubborn_scene; scene3]
                 {| counterState := None; calls := [] |}
  = (Throw (Error "Cannot convert object to primitive value"),
     {| counterState := None;
        calls := [FetchImage 0 (VString "A robot facing an empty canvas")] |}).
Proof. vm_compute. reflexivity. Qed.

Lemma scene_image_failed E i scene :
  image_call_fails E i → scene_image E i scene = placeholder_failed.
Proof.
  unfold scene_image, image_pipeline.
  intros [e ->|res -> ->|res e -> -> ->|res data -> -> -> Hnull]; simpl.
  - done.
  - destruct (Get E scene Ftitle) as [title|]; [|done].
    by destruct (template E title).
  - done.
  - by destruct data.
Qed.

Lemma scene_image_succeeded E i scene data url :
  image_call_succeeds E i data → Get E data FimageUrl = Normal url →
  scene_image E i scene = if truthy url then url else placeholder_generated.
Proof.
  unfold scene_image, image_pipeline.
  intros (res & -> & -> & -> & _) ->. simpl. by destruct (truthy url).
Qed.

(** C7 (per-scene failure isolation).  A failed image call -- transport
    error, non-success status, or an error thrown while its answer is
    read -- yields the "generation failed" placeholder for its own scene;
    a successful answer without [imageUrl] yields the "image generated"
    placeholder, and one with it yields that reference.  So when
    [generateScript] has returned, for the [idea] and [duration] of an
    admitted request, a script of [K] scenes whose descriptions can be
    read and logged, and the call of scene [j] fails while the calls of
    the other scenes succeed with references [refs i], the request is
    answered 200 with [K] images: the failure placeholder at [j] and
    [refs i] everywhere else. *)
Theorem per_scene_failure_isolation E :
  (∀ i scene,
     image_call_fails E i → scene_image E i scene = placeholder_failed)
  ∧ (∀ i scene data,
       image_call_succeeds E i data →
       Get E data FimageUrl = Normal VUndefined →
       scene_image E i scene = placeholder_generated)
  ∧ (∀ i scene data url,
       image_call_succeeds E i data →
       Get E data FimageUrl = Normal url → truthy url = true →
       scene_image E i scene = url)
  ∧ (∀ store event idea duration (script : list value) (j : nat)
       (refs : nat → value),
       admitted store E event = true →
       request_fields E event = Normal (idea, duration) →
       script_for E idea duration = Normal script →
       Forall (λ scene, promptable scene = true) script →
       (j < length script)%nat →
       image_call_fails E j →
       (∀ i, (i < length script)%nat → i ≠ j →
             ∃ data, image_call_succeeds E i data
                     ∧ Get E data FimageUrl = Normal (refs i)
                     ∧ truthy (refs i) = true) →
       ∃ images : list value,
         (serve store E event).1 = Normal (reply 200 (ResultBody script images))
         ∧ length images = length script
         ∧ images !! j = Some placeholder_failed
         ∧ ∀ i, (i < length script)%nat → i ≠ j →
                images !! i = Some (refs i)).
Proof.
  split_and!.
  - apply scene_image_failed.
  - intros i scene data Hok Hurl.
    by rewrite (scene_image_succeeded E i scene data VUndefined).
  - intros i scene data url Hok Hurl Htruthy.
    by rewrite (scene_image_succeeded E i scene data url), Htruthy.
  - intros store event idea duration script j refs Hadm Hfields Hscript Hwf
           Hj Hfail Hothers.
    exists (imap (scene_image E) script).
    destruct (admitted_fields _ _ _ Hadm) as (idea' & duration' & Hfields' & ->).
    rewrite Hfields in Hfields'. injection Hfields' as <- <-.
    rewrite (admitted_outcome_script_returns E store idea duration script)
      by done.
    rewrite generateImages_run by done. split_and!.
    + done.
    + apply length_imap.
    + rewrite list_lookup_imap.
      destruct (lookup_lt_is_Some_2 script j Hj) as [scene ->]. simpl.
      f_equal. by apply scene_image_failed.
    + intros i Hi Hne. rewrite list_lookup_imap.
      destruct (lookup_lt_is_Some_2 script i Hi) as [scene ->]. simpl.
      destruct (Hothers i Hi Hne) as (data & Hok & Hurl & Htruthy).
      by rewrite (scene_image_succeeded E i scene data (refs i)), Htruthy.
Qed.

Lemma per_scene_failure_isolation_witness :
  ∃ images : list value,
    (serve (today_store 10) one_image_down_env (post body_robot)).1
    = Normal (reply 200 (ResultBody [scene1; scene2; scene3] images))
    ∧ length images = 3%nat
    ∧ images !! 1%nat = Some placeholder_failed
    ∧ images !! 0%nat = Some (image_url 0)
    ∧ images !! 2%nat = Some (image_url 2).
Proof.
  destruct (per_scene_failure_isolation one_image_down_env)
    as (_ & _ & _ & Hpipeline).
  destruct (Hpipeline (today_store 10) (post body_robot)
              (VString "a robot learns to paint") (VNumber 30%float)
              [scene1; scene2; scene3] 1%nat image_url)
    as (images & Hanswer & Hlen & Hfailed & Hothers).
  - reflexivity.
  - reflexivity.
  - reflexivity.
  - repeat constructor.
  - simpl. lia.
  - by eapply non_success_status.
  - intros [|[|[|i]]] Hi Hne; simpl in Hi; try lia.
    + exists (VObject [("imageUrl", image_url 0)]).
      split_and!; [|done..]. by eexists.
    + exists (VObject [("imageUrl", image_url 2)]).
      split_and!; [|done..]. by eexists.
  - exists images. split_and!; [exact Hanswer | exact Hlen | exact Hfailed | |].
    + apply Hothers; simpl; lia.
    + apply Hothers; simpl; lia.
Defined.

(** ** The script generator *)

(** C8, as the specification states it, fails: the only shape
    [generateScript] checks is that [script] is an array.  An answer
    whose script is [[1]] is malformed in the specification's sense, and
    is returned as the script all the same. *)
Lemma generateScript_returns_unchecked_elements :
  JSON_parse numbers_env (VString numbers_text)
  = Normal (VObject [("script", VArray [VNumber 1%float])])
  ∧ malformed_per_spec (VObject [("script", VArray [VNumber 1%float])]) = true
  ∧ script_outcome numbers_env = Normal [VNumber 1%float]
  ∧ script_outcome numbers_env ≠ Throw (Error msg_format).
Proof. vm_compute. by split_and!. Qed.

Lemma script_outcome_rejected E e :
  fetch_gemini E = Rejects e → script_outcome E = Throw e.
Proof.
  intros Hfetch. unfold script_outcome, generateScript. run_monad.
  by rewrite Hfetch.
Qed.

Lemma script_outcome_not_ok E res :
  fetch_gemini E = Resolves res → ok res = false →
  script_outcome E = match response_text res with
                     | Normal _ => Throw (Error msg_upstream)
                     | Throw e => Throw e
                     end.
Proof.
  intros Hfetch Hok. unfold script_outcome, generateScript. run_monad.
  rewrite Hfetch. simpl. rewrite Hok. simpl.
  by destruct (response_text res).
Qed.

Lemma script_outcome_not_json E res e :
  fetch_gemini E = Resolves res → ok res = true →
  response_json res = Throw e → script_outcome E = Throw e.
Proof.
  intros Hfetch Hok Hjson. unfold script_outcome, generateScript. run_monad.
  rewrite Hfetch. simpl. rewrite Hok. simpl. by rewrite Hjson.
Qed.

Section Payload.
Context (E : environment) (res : http_response) (data : value).
Context (Hfetch : fetch_gemini E = Resolves res) (Hok : ok res = true)
        (Hjson : response_json res = Normal data).

Lemma script_outcome_carried scenes :
  carries_script E data scenes → script_outcome E = Normal scenes.
Proof.
  intros (candidates & candidate & content & parts & part & text & result
          & H1 & H2 & H3 & H4 & H5 & H6 & H7 & H8).
  unfold script_outcome, generateScript. run_monad.
  rewrite Hfetch. simpl. rewrite Hok. simpl. rewrite Hjson.
  by rewrite H1, H2, H3, H4, H5, H6, H7, H8.
Qed.

Lemma script_outcome_not_carried :
  (∀ scenes, ¬ carries_script E data scenes) →
  script_outcome E = Throw (Error msg_format).
Proof.
  intros Hnone. unfold script_outcome, generateScript. run_monad.
  rewrite Hfetch. simpl. rewrite Hok. simpl. rewrite Hjson.
  destruct (Get E data Fcandidates) as [candidates|] eqn:H1; [|done].
  destruct (Get0 E candidates) as [candidate|] eqn:H2; [|done].
  destruct (Get E candidate Fcontent) as [content|] eqn:H3; [|done].
  destruct (Get E content Fparts) as [parts|] eqn:H4; [|done].
  destruct (Get0 E parts) as [part|] eqn:H5; [|done].
  destruct (Get E part Ftext) as [text|] eqn:H6; [|done].
  destruct (JSON_parse E text) as [result|] eqn:H7; [|done].
  destruct (Get E result Fscript) as [script|] eqn:H8; [|done].
  destruct script as [| | | | |scenes|]; simpl; try done;
    try by destruct (negb _).
  destruct (Hnone scenes).
  by exists candidates, candidate, content, parts, part, text, result.
Qed.
End Payload.

(** C8, amended (failure conditions of the script generator).
    [generateScript] first builds its prompt, and throws without sending
    anything when [duration] or [idea] has no string conversion.
    Otherwise it sends one request to the text service and never a second
    one.  It throws when the request fails or the status is not a success
    (with the upstream message once the error body is read).  On a
    success whose body is JSON, it throws the format error exactly when
    the answer carries no script array -- the text is missing, is not
    JSON, or its [script] is not an array -- and otherwise returns that
    array as it is: the elements are not inspected. *)
Theorem generateScript_failure_conditions E :
  (∀ idea duration w,
     convertible duration && convertible idea = false →
     ∃ e, generateScript E idea duration w = (Throw e, w))
  ∧ (∀ idea duration w,
       convertible duration = true → convertible idea = true →
       generateScript E idea duration w
       = (script_outcome E, log (FetchGemini idea duration) w))
  ∧ (∀ e, fetch_gemini E = Rejects e → script_outcome E = Throw e)
  ∧ (∀ res, fetch_gemini E = Resolves res → ok res = false →
       (∃ e, script_outcome E = Throw e)
       ∧ (∀ errorBody, response_text res = Normal errorBody →
                       script_outcome E = Throw (Error msg_upstream)))
  ∧ (∀ res data,
       fetch_gemini E = Resolves res → ok res = true →
       response_json res = Normal data →
       (∀ scenes, carries_script E data scenes →
                  script_outcome E = Normal scenes)
       ∧ (script_outcome E = Throw (Error msg_format)
          ↔ ∀ scenes, ¬ carries_script E data scenes)).
Proof.
  split_and!.
  - intros idea duration w Hconv. eexists.
    by apply generateScript_no_prompt.
  - intros. by apply generateScript_run.
  - apply script_outcome_rejected.
  - intros res Hfetch Hok. rewrite (script_outcome_not_ok E res Hfetch Hok).
    split.
    + destruct (response_text res); by eexists.
    + by intros errorBody ->.
  - intros res data Hfetch Hok Hjson. split; [|split].
    + by apply script_outcome_carried with res.
    + intros Hthrow scenes Hcarried.
      rewrite (script_outcome_carried E res data Hfetch Hok Hjson scenes
                 Hcarried) in Hthrow.
      discriminate.
    + by apply script_outcome_not_carried with res.
Qed.

Lemma generateScript_failure_conditions_witness :
  script_outcome gemini_down_env = Throw (Error msg_upstream)
  ∧ script_outcome robot_env = Normal [scene1; scene2; scene3]
  ∧ ∃ e, generateScript robot_env stubborn (VNumber 30%float)
           {| counterState := None; calls := [] |}
         = (Throw e, {| counterState := None; calls := [] |}).
Proof.
  split_and!.
  - destruct (generateScript_failure_conditions gemini_down_env)
      as (_ & _ & _ & Hstatus & _).
    by destruct (Hstatus _ eq_refl eq_refl) as [_ Hupstream];
      apply (Hupstream "upstream error").
  - destruct (generateScript_failure_conditions robot_env)
      as (_ & _ & _ & _ & Hsuccess).
    destruct (Hsuccess _ _ eq_refl eq_refl eq_refl) as [Hcarried _].
    apply Hcarried. by repeat eexists.
  - destruct (generateScript_failure_conditions robot_env)
      as (Hprompt & _).
    by apply Hprompt.
Defined.

(** * Further properties of the function *)

(** ** Helper facts *)

Lemma observed_dated_today E store :
  lastReset (observed_state E store) = before_T (now_handler E).
Proof.
  unfold observed_state, reset_if_new_day.
  destruct (String.eqb _ _) eqn:Hsame; simpl; [|done].
  by apply String.eqb_eq in Hsame.
Qed.

Lemma observed_count_le E store :
  count (observed_state E store) ≤ stored_count store.
Proof.
  unfold observed_state, reset_if_new_day.
  destruct (negb _); simpl; [lia|]. by destruct store.
Qed.

Lemma stored_count_initialised E store :
  stored_count (Some (default (initial_counter E) store)) = stored_count store.
Proof. by destruct store. Qed.

Lemma not_admitted_count store E event :
  admitted store E event = false →
  stored_count (store_after store E event) = stored_count store.
Proof.
  intros [_ [-> | ->]]%not_admitted_run; [done|].
  apply stored_count_initialised.
Qed.

Lemma store_after_within_limit store E event :
  within_limit store → within_limit (store_after store E event).
Proof.
  unfold within_limit. intros Hle.
  destruct (admitted store E event) eqn:Hadm.
  - destruct (admitted_inv _ _ _ Hadm) as (_ & Hroom & _).
    destruct (admitted_run _ _ _ Hadm) as (rest & _ & _ & ->).
    simpl. unfold GLOBAL_DAILY_LIMIT in *. lia.
  - by rewrite not_admitted_count.
Qed.

Lemma Get_nullish E scene f :
  nullish scene = true → ∃ e, Get E scene f = Throw e.
Proof. destruct scene; try done; by eexists. Qed.

Lemma map_scenes_Normal_inv E script : ∀ i w promises,
  (map_scenes E i script w).1 = Normal promises →
  Forall (λ scene, promptable scene = true) script.
Proof.
  induction script as [|scene rest IH]; intros i w promises Hrun.
  - constructor.
  - cbn [map_scenes] in Hrun.
    destruct (nullish scene) eqn:Hscene.
    { destruct (Get_nullish E scene Fdescription Hscene) as [e He].
      by rewrite He, bind_await_Throw in Hrun. }
    rewrite Get_description, bind_await_Normal in Hrun by done.
    unfold template in Hrun.
    destruct (convertible (prompt_of scene)) eqn:Hprompt.
    2: { by rewrite bind_await_Throw in Hrun. }
    rewrite bind_await_Normal, bind_emit in Hrun.
    unfold mbind, M_bind in Hrun.
    constructor; [unfold promptable; by rewrite Hscene, Hprompt|].
    destruct (map_scenes E (S i) rest _) as [[ps|e] w'] eqn:Hrest; [|done].
    eapply (IH (S i) _ ps). by rewrite Hrest.
Qed.

Lemma generateImages_Normal_inv E script w images :
  (generateImages E script w).1 = Normal images →
  Forall (λ scene, promptable scene = true) script.
Proof.
  unfold generateImages, mbind, M_bind. intros Hrun.
  destruct (map_scenes E 0 script w) as [[ps|e] w'] eqn:Hmap; [|done].
  eapply (map_scenes_Normal_inv E script 0 w ps). by rewrite Hmap.
Qed.

Lemma error_text_nonempty e : error_text e ≠ "".
Proof.
  unfold error_text. destruct (String.eqb (message e) "") eqn:Hempty.
  - done.
  - by apply String.eqb_neq.
Qed.

Lemma truthy_scene_image E i scene : truthy (scene_image E i scene) = true.
Proof.
  unfold scene_image, image_pipeline.
  destruct (fetch_image E i) as [e|res]; [done|].
  destruct (negb (ok res)).
  - destruct (Get E scene Ftitle) as [title|e]; [|done].
    by destruct (template E title).
  - destruct (response_json res) as [data|e]; [|done].
    destruct (Get E data FimageUrl) as [url|e]; [|done].
    by destruct (truthy url) eqn:Hurl.
Qed.

Lemma serve_all_counts d reqs : ∀ c,
  Forall (λ r : environment * request, before_T (now_handler r.1) = d) reqs →
  serve_all (Some {| count := c; lastReset := d |}) reqs
  = Some {| count := c + N.of_nat (admitted_count
                                     (Some {| count := c; lastReset := d |})
                                     reqs);
            lastReset := d |}.
Proof.
  induction reqs as [|[E event] rest IH]; intros c Hday.
  - simpl. do 2 f_equal. lia.
  - apply Forall_cons in Hday as [HE Hrest]. simpl in HE.
    cbn [serve_all admitted_count].
    destruct (admitted _ E event) eqn:Hadm.
    + destruct (admitted_run _ _ _ Hadm) as (calls & _ & _ & ->).
      unfold incremented. rewrite (observed_same_day E c d HE). simpl.
      rewrite (IH (c + 1) Hrest). do 2 f_equal. lia.
    + destruct (not_admitted_run _ _ _ Hadm) as [_ [-> | ->]]; simpl;
        rewrite (IH c Hrest); do 2 f_equal; lia.
Qed.

Lemma serve_all_within_limit reqs : ∀ store,
  within_limit store → within_limit (serve_all store reqs).
Proof.
  induction reqs as [|[E event] rest IH]; intros store Hle; [done|].
  cbn [serve_all]. by apply IH, store_after_within_limit.
Qed.

(** ** Methods other than POST *)

(** X1.  A request whose method is not POST never reaches the pipeline:
    the store is left exactly as it is, no call is made, and the answer
    -- 204 without a body for OPTIONS, 405 with an error body for anything
    else -- is the same whatever the store, the clock and the upstream
    services. *)
Theorem other_methods_bypass_pipeline store E event :
  httpMethod event ≠ "POST" →
  store_after store E event = store
  ∧ calls_of store E event = []
  ∧ (∀ store' E', (serve store' E' event).1 = (serve store E event).1)
  ∧ (httpMethod event = "OPTIONS" →
     (serve store E event).1
     = Normal {| statusCode := 204; headers := cors_headers;
                 response_body := None |})
  ∧ (httpMethod event ≠ "OPTIONS" →
     (serve store E event).1 = Normal (reply 405 (ErrorBody msg_method))).
Proof.
  intros Hother. unfold store_after, calls_of.
  destruct (decide (httpMethod event = "OPTIONS")) as [Hopt|Hopt].
  - rewrite serve_OPTIONS by done. split_and!; try done.
    intros store' E'. by rewrite serve_OPTIONS.
  - rewrite serve_other_method by done. split_and!; try done.
    intros store' E'. by rewrite serve_other_method.
Qed.

Lemma other_methods_bypass_pipeline_witness :
  store_after (today_store 50) robot_env get_request = today_store 50
  ∧ (serve (today_store 50) robot_env get_request).1
    = Normal (reply 405 (ErrorBody msg_method)).
Proof.
  destruct (other_methods_bypass_pipeline (today_store 50) robot_env
              get_request) as (Hstore & _ & _ & _ & H405).
  - discriminate.
  - split; [exact Hstore | apply H405; discriminate].
Defined.

(** ** The shape of every answer *)

(** X2.  The handler answers every request -- no exception escapes it --
    with the CORS headers and one of three shapes: 204 without a body;
    400, 405, 429 or 500 with a non-empty error message; or 200 with a
    script and exactly as many images as the script has scenes. *)
Theorem every_answer_is_well_shaped store E event :
  ∃ r, (serve store E event).1 = Normal r
       ∧ headers r = cors_headers
       ∧ ((statusCode r = 204%Z ∧ response_body r = None)
          ∨ (∃ msg, (statusCode r = 400%Z ∨ statusCode r = 405%Z
                     ∨ statusCode r = 429%Z ∨ statusCode r = 500%Z)
                    ∧ response_body r = Some (ErrorBody msg) ∧ msg ≠ "")
          ∨ (∃ script images : list value,
               statusCode r = 200%Z
               ∧ response_body r = Some (ResultBody script images)
               ∧ length images = length script)).
Proof.
  destruct (serve_served E store event)
    as [| | | | | |parsed idea duration _ _ _ _ _ _].
  - eexists. split_and!; [done..|]. by left.
  - eexists. split_and!; [done..|]. right; left. exists msg_method.
    split_and!; [by right; left|done..].
  - eexists. split_and!; [done..|]. right; left. exists msg_limit.
    split_and!; [by right; right; left|done..].
  - eexists. split_and!; [done..|]. right; left. eexists.
    split_and!; [by right; right; right|done|apply error_text_nonempty].
  - eexists. split_and!; [done..|]. right; left. eexists.
    split_and!; [by right; right; right|done|apply error_text_nonempty].
  - eexists. split_and!; [done..|]. right; left. exists msg_required.
    split_and!; [by left|done..].
  - destruct (script_for E idea duration) as [script|e] eqn:Hscript.
    2: rewrite (admitted_outcome_script_fails E store idea duration e Hscript).
    1: rewrite (admitted_outcome_script_returns E store idea duration script
                  Hscript).
    + destruct (generateImages E script _) as [[images|e] w2] eqn:Himages.
      * eexists. split_and!; [done..|]. right; right.
        exists script, images. split_and!; [done..|].
        assert (Forall (λ scene, promptable scene = true) script) as Hwf.
        { eapply generateImages_Normal_inv. by rewrite Himages. }
        rewrite generateImages_run in Himages by done.
        simplify_eq. apply length_imap.
      * eexists. split_and!; [done..|]. right; left. eexists.
        split_and!; [by right; right; right|done|apply error_text_nonempty].
    + eexists. split_and!; [done..|]. right; left. eexists.
      split_and!; [by right; right; right|done|apply error_text_nonempty].
Qed.

(** ** The counter over a run of requests *)

(** X3.  The stored count never passes the daily limit: if it is within
    the limit (or the store is still empty), it is within the limit after
    any requests whatsoever, on whatever days and with whatever outcomes. *)
Theorem counter_never_exceeds_limit store reqs :
  within_limit store → within_limit (serve_all store reqs).
Proof. apply serve_all_within_limit. Qed.

Lemma counter_never_exceeds_limit_witness :
  within_limit (serve_all (today_store 49) mixed_day).
Proof.
  apply (counter_never_exceeds_limit (today_store 49) mixed_day).
  vm_compute. discriminate.
Defined.

(** X4.  Over requests of one UTC day, starting from a counter of that
    day, the stored count grows by exactly the number of admitted
    requests: requests that are refused, invalid, unparseable or of
    another method leave it alone, and the stored date stays the day. *)
Theorem counter_counts_admitted d c reqs :
  Forall (λ r : environment * request, before_T (now_handler r.1) = d) reqs →
  serve_all (Some {| count := c; lastReset := d |}) reqs
  = Some {| count := c + N.of_nat (admitted_count
                                     (Some {| count := c; lastReset := d |})
                                     reqs);
            lastReset := d |}.
Proof. apply serve_all_counts. Qed.

Lemma counter_counts_admitted_witness :
  serve_all (today_store 10) mixed_day = today_store 12.
Proof.
  apply (counter_counts_admitted "2024-05-02" 10 mixed_day).
  repeat constructor.
Defined.

(** X5.  The daily cap holds: over requests of one UTC day, starting from
    a counter of that day within the limit, at most [limit - c] requests
    are admitted; and starting from a full counter none is, the store
    stays as it is, and every POST of the run is answered 429. *)
Theorem daily_cap d c reqs :
  Forall (λ r : environment * request, before_T (now_handler r.1) = d) reqs →
  c ≤ GLOBAL_DAILY_LIMIT →
  c + N.of_nat (admitted_count (Some {| count := c; lastReset := d |}) reqs)
  ≤ GLOBAL_DAILY_LIMIT
  ∧ (c = GLOBAL_DAILY_LIMIT →
     serve_all (Some {| count := c; lastReset := d |}) reqs
     = Some {| count := c; lastReset := d |}
     ∧ ∀ k E event, reqs !! k = Some (E, event) → httpMethod event = "POST" →
         (serve (serve_all (Some {| count := c; lastReset := d |})
                           (take k reqs)) E event).1
         = Normal (reply 429 (ErrorBody msg_limit))).
Proof.
  intros Hday Hc.
  assert (∀ l, Forall (λ r : environment * request,
                         before_T (now_handler r.1) = d) l →
               c + N.of_nat (admitted_count
                               (Some {| count := c; lastReset := d |}) l)
               ≤ GLOBAL_DAILY_LIMIT) as Hcap.
  { intros l Hl.
    pose proof (serve_all_within_limit l
                  (Some {| count := c; lastReset := d |}) Hc) as Hle.
    by rewrite (serve_all_counts d l c Hl) in Hle. }
  split; [by apply Hcap|]. intros Hfull.
  assert (∀ l, Forall (λ r : environment * request,
                         before_T (now_handler r.1) = d) l →
               serve_all (Some {| count := c; lastReset := d |}) l
               = Some {| count := c; lastReset := d |}) as Hstay.
  { intros l Hl. rewrite (serve_all_counts d l c Hl).
    pose proof (Hcap l Hl). do 2 f_equal. lia. }
  split; [by apply Hstay|].
  intros k E event Hk HPOST.
  rewrite Hstay by by apply Forall_take.
  rewrite serve_rejected; [done..|].
  rewrite observed_same_day; [simpl; lia|].
  by apply (Forall_lookup_1 _ _ _ _ Hday Hk).
Qed.

Lemma daily_cap_witness :
  serve_all (today_store 50) mixed_day = today_store 50
  ∧ (49 + N.of_nat (admitted_count (today_store 49) mixed_day)
     ≤ GLOBAL_DAILY_LIMIT).
Proof.
  split.
  - apply (daily_cap "2024-05-02" 50 mixed_day);
      [repeat constructor | done | done].
  - apply (daily_cap "2024-05-02" 49 mixed_day);
      [repeat constructor | vm_compute; discriminate].
Defined.

(** ** What an admitted request leaves behind *)

Lemma admitted_script_failure store E event idea duration e :
  admitted store E event = true →
  request_fields E event = Normal (idea, duration) →
  script_for E idea duration = Throw e →
  serve store E event
  = (Normal (reply 500 (ErrorBody (error_text e))),
     {| counterState := Some (incremented E store);
        calls := UpdateCounterState (incremented E store)
                   :: script_calls idea duration |}).
Proof.
  intros Hadm Hfields Hscript.
  destruct (admitted_fields _ _ _ Hadm) as (idea' & duration' & Hfields' & ->).
  rewrite Hfields in Hfields'. injection Hfields' as <- <-.
  by apply admitted_outcome_script_fails.
Qed.

Lemma admitted_script_success store E event idea duration script :
  admitted store E event = true →
  request_fields E event = Normal (idea, duration) →
  script_for E idea duration = Normal script →
  serve store E event
  = match generateImages E script
            {| counterState := Some (incremented E store);
               calls := [UpdateCounterState (incremented E store);
                         FetchGemini idea duration] |} with
    | (Normal images, w2) =>
        (Normal (reply 200 (ResultBody script images)), w2)
    | (Throw e, w2) => (Normal (reply 500 (ErrorBody (error_text e))), w2)
    end.
Proof.
  intros Hadm Hfields Hscript.
  destruct (admitted_fields _ _ _ Hadm) as (idea' & duration' & Hfields' & ->).
  rewrite Hfields in Hfields'. injection Hfields' as <- <-.
  by apply admitted_outcome_script_returns.
Qed.

(** X6.  Whatever the store held -- nothing yet, a counter of today or a
    stale one -- an admitted request leaves in it a counter dated with
    the UTC date the handler read, whose count is at least 1 and at most
    the limit; from an empty store the count is 1. *)
Theorem admitted_writes_todays_counter store E event :
  admitted store E event = true →
  ∃ c, store_after store E event
       = Some {| count := c; lastReset := before_T (now_handler E) |}
       ∧ 1 ≤ c ∧ c ≤ GLOBAL_DAILY_LIMIT
       ∧ (store = None → c = 1).
Proof.
  intros Hadm. destruct (admitted_inv _ _ _ Hadm) as (_ & Hroom & _).
  destruct (admitted_run _ _ _ Hadm) as (rest & _ & _ & ->).
  exists (count (observed_state E store) + 1). unfold incremented.
  rewrite observed_dated_today. split_and!; [done|lia| |].
  - unfold GLOBAL_DAILY_LIMIT in *. lia.
  - intros ->. pose proof (observed_count_le E None) as Hle.
    simpl in Hle. lia.
Qed.

Lemma admitted_writes_todays_counter_witness :
  store_after None robot_env (post body_robot)
  = Some {| count := 1; lastReset := "2024-05-02" |}.
Proof.
  destruct (admitted_writes_todays_counter None robot_env (post body_robot))
    as (c & Hstore & _ & _ & Hcold); [reflexivity|].
  rewrite (Hcold eq_refl) in Hstore. exact Hstore.
Defined.

(** X7.  A run that succeeds makes its calls in this order and no others:
    the write of the incremented counter, one request to the text service
    with the [idea] and [duration] of the body, then one request to the
    image service per scene, in script order, each with the description
    of its scene as the prompt; and it answers 200 with the script and
    the image of each scene at the index of the scene.  A run succeeds
    when [generateScript] returns for that [idea] and [duration] and the
    description of every scene of the script can be read and logged. *)
Theorem successful_run store E event idea duration (script : list value) :
  admitted store E event = true →
  request_fields E event = Normal (idea, duration) →
  script_for E idea duration = Normal script →
  Forall (λ scene, promptable scene = true) script →
  (serve store E event).1
  = Normal (reply 200 (ResultBody script (imap (scene_image E) script)))
  ∧ calls_of store E event
    = UpdateCounterState (incremented E store)
        :: FetchGemini idea duration
        :: imap (λ k scene, FetchImage k (prompt_of scene)) script.
Proof.
  intros Hadm Hfields Hscript Hwf. unfold calls_of.
  rewrite (admitted_script_success _ _ _ _ _ _ Hadm Hfields Hscript).
  by rewrite generateImages_run.
Qed.

Lemma successful_run_witness :
  calls_of (today_store 10) robot_env (post body_robot)
  = [UpdateCounterState {| count := 11; lastReset := "2024-05-02" |};
     FetchGemini (VString "a robot learns to paint") (VNumber 30%float);
     FetchImage 0 (VString "A robot facing an empty canvas");
     FetchImage 1 (VString "A robot arm painting clumsy lines");
     FetchImage 2 (VString "A robot beside a colourful painting")].
Proof.
  apply (successful_run (today_store 10) robot_env (post body_robot)
           (VString "a robot learns to paint") (VNumber 30%float)
           [scene1; scene2; scene3]);
    [reflexivity | reflexivity | reflexivity | repeat constructor].
Defined.

(** X8.  When [generateScript] throws, the run stops there: its calls
    are the write of the counter and, if the prompt could be built, the
    one request to the text service -- nothing at all goes upstream when
    [duration] or [idea] has no string conversion -- and the image
    service is never called. *)
Theorem script_failure_stops_the_run store E event idea duration e :
  admitted store E event = true →
  request_fields E event = Normal (idea, duration) →
  script_for E idea duration = Throw e →
  calls_of store E event
  = UpdateCounterState (incremented E store)
      :: (if convertible duration && convertible idea
          then [FetchGemini idea duration] else []).
Proof.
  intros Hadm Hfields Hscript. unfold calls_of.
  by rewrite (admitted_script_failure _ _ _ _ _ _ Hadm Hfields Hscript).
Qed.

Lemma script_failure_stops_the_run_witness :
  calls_of (today_store 10) gemini_down_env (post body_robot)
  = [UpdateCounterState {| count := 11; lastReset := "2024-05-02" |};
     FetchGemini (VString "a robot learns to paint") (VNumber 30%float)]
  ∧ calls_of (today_store 10) stubborn_idea_env (post body_stubborn_idea)
    = [UpdateCounterState {| count := 11; lastReset := "2024-05-02" |}].
Proof.
  split.
  - apply (script_failure_stops_the_run (today_store 10) gemini_down_env
             (post body_robot) (VString "a robot learns to paint")
             (VNumber 30%float) (Error msg_upstream)); reflexivity.
  - apply (script_failure_stops_the_run (today_store 10) stubborn_idea_env
             (post body_stubborn_idea) stubborn (VNumber 30%float)
             (Error "Cannot convert object to primitive value"));
      reflexivity.
Defined.

(** ** Scripts with holes *)

(** X9.  [generateImages] returns exactly when the description of every
    scene can be read and logged: no scene is [null] or [undefined], and
    no description lacks a string conversion.  Otherwise it throws inside
    [script.map].  [generateScript] lets such a script through, and the
    request that got it is answered 500 with its unit of quota spent. *)
Theorem generateImages_returns_iff_no_hole E (script : list value) w :
  ((∃ images, (generateImages E script w).1 = Normal images)
   ↔ Forall (λ scene, promptable scene = true) script)
  ∧ (∀ store event idea duration,
       admitted store E event = true →
       request_fields E event = Normal (idea, duration) →
       script_for E idea duration = Normal script →
       ¬ Forall (λ scene, promptable scene = true) script →
       (∃ msg, (serve store E event).1 = Normal (reply 500 (ErrorBody msg)))
       ∧ store_after store E event = Some (incremented E store)).
Proof.
  split.
  - split.
    + intros [images Hrun]. by eapply generateImages_Normal_inv.
    + intros Hwf. eexists. by rewrite generateImages_run.
  - intros store event idea duration Hadm Hfields Hscript Hhole.
    destruct (admitted_run _ _ _ Hadm) as (rest & _ & _ & Hstore).
    split; [|done].
    rewrite (admitted_script_success _ _ _ _ _ _ Hadm Hfields Hscript).
    destruct (generateImages E script _) as [[images|e] w2] eqn:Himages.
    + destruct Hhole. eapply generateImages_Normal_inv. by rewrite Himages.
    + by eexists.
Qed.

Lemma generateImages_returns_iff_no_hole_witness :
  ((∃ msg, (serve (today_store 10) hole_env (post body_robot)).1
           = Normal (reply 500 (ErrorBody msg)))
   ∧ store_after (today_store 10) hole_env (post body_robot) = today_store 11)
  ∧ ((∃ msg, (serve (today_store 10) stubborn_scene_env (post body_robot)).1
             = Normal (reply 500 (ErrorBody msg)))
     ∧ store_after (today_store 10) stubborn_scene_env (post body_robot)
       = today_store 11).
Proof.
  split.
  - destruct (generateImages_returns_iff_no_hole hole_env
                [scene1; VNull; scene3]
                {| counterState := None; calls := [] |}) as [_ Hserve].
    apply (Hserve (today_store 10) (post body_robot)
             (VString "a robot learns to paint") (VNumber 30%float));
      [reflexivity..|].
    intros Hwf. apply Forall_cons in Hwf as [_ Hwf].
    apply Forall_cons in Hwf as [Hnull _]. discriminate.
  - destruct (generateImages_returns_iff_no_hole stubborn_scene_env
                [scene1; stubborn_scene; scene3]
                {| counterState := None; calls := [] |}) as [_ Hserve].
    apply (Hserve (today_store 10) (post body_robot)
             (VString "a robot learns to paint") (VNumber 30%float));
      [reflexivity..|].
    intros Hwf. apply Forall_cons in Hwf as [_ Hwf].
    apply Forall_cons in Hwf as [Hstubborn _]. discriminate.
Defined.

(** X11.  No image that [generateImages] returns is falsy: each is a
    truthy reference from the image service or one of the two
    placeholders, never [undefined], [null] or the empty string. *)
Theorem images_are_never_falsy E (script : list value) w images :
  (generateImages E script w).1 = Normal images →
  Forall (λ image, truthy image = true) images.
Proof.
  intros Hrun.
  pose proof (generateImages_Normal_inv _ _ _ _ Hrun) as Hwf.
  rewrite generateImages_run in Hrun by done. simpl in Hrun.
  injection Hrun as <-. apply Forall_lookup. intros i image.
  rewrite list_lookup_imap. destruct (script !! i) as [scene|]; [|done].
  simpl. intros [= <-]. apply truthy_scene_image.
Qed.

Lemma images_are_never_falsy_witness :
  Forall (λ image, truthy image = true)
         [image_url 0; placeholder_failed; image_url 2].
Proof.
  apply (images_are_never_falsy one_image_down_env [scene1; scene2; scene3]
           {| counterState := None; calls := [] |}).
  reflexivity.
Defined.

(** ** The date of a timestamp *)

Lemma before_T_append date rest :
  has_T date = false →
  before_T (date +:+ String (Ascii.ascii_of_nat 84) rest) = date.
Proof.
  induction date as [|c date IH]; intros Hdate; simpl in *.
  - done.
  - apply orb_false_iff in Hdate as [Hc Hdate].
    rewrite Hc. by rewrite IH.
Qed.

Lemma has_T_before_T s : has_T (before_T s) = false.
Proof.
  induction s as [|c s IH]; simpl; [done|].
  destruct (Ascii.eqb c _) eqn:Hc; simpl; [done|]. by rewrite Hc.
Qed.

Lemma before_T_without_T s : has_T s = false → before_T s = s.
Proof.
  induction s as [|c s IH]; simpl; [done|].
  intros [Hc Hs]%orb_false_iff. rewrite Hc. by rewrite IH.
Qed.

(** X10.  [split('T')[0]] takes the date off a timestamp: of a text
    [date ++ "T" ++ rest] whose [date] has no [T] it returns [date],
    whatever [rest] is, so two timestamps of one day give the same date;
    a text without [T] is returned whole; and the result never contains
    a [T], so taking the date of a date changes nothing. *)
Theorem before_T_is_the_date_part :
  (∀ date rest, has_T date = false →
                before_T (date +:+ "T" +:+ rest) = date)
  ∧ (∀ s, has_T s = false → before_T s = s)
  ∧ (∀ s, has_T (before_T s) = false)
  ∧ (∀ s, before_T (before_T s) = before_T s).
Proof.
  split_and!.
  - intros date rest Hdate. by apply before_T_append.
  - apply before_T_without_T.
  - apply has_T_before_T.
  - intros s. apply before_T_without_T, has_T_before_T.
Qed.

Lemma before_T_is_the_date_part_witness :
  before_T ("2024-05-02" +:+ "T" +:+ "23:59:59.999Z") = "2024-05-02"
  ∧ before_T "2024-05-02" = "2024-05-02".
Proof.
  destruct before_T_is_the_date_part as (Hdate & Hwhole & _ & _).
  split; [apply Hdate | apply Hwhole]; reflexivity.
Defined.

(** ** What the status codes tell *)

(** X12.  Every 200 was paid for: a request is answered 200 only if it
    was admitted, the store then holds the incremented counter, and the
    body carries the script [generateScript] returned and one image per
    scene. *)
Theorem status_200_only_when_counted store E event r :
  (serve store E event).1 = Normal r → statusCode r = 200%Z →
  admitted store E event = true
  ∧ store_after store E event = Some (incremented E store)
  ∧ ∃ script, script_outcome E = Normal script
              ∧ response_body r
                = Some (ResultBody script (imap (scene_image E) script)).
Proof.
  unfold admitted, calls_of, store_after.
  destruct (serve_served E store event)
    as [| | | | | |parsed idea duration _ _ _ _ _ _]; intros Hr Hcode;
    simpl in Hr; simplify_eq; try done.
  destruct (admitted_outcome_spec E store idea duration)
    as (r' & rest & Hrun & _ & _).
  rewrite Hrun in Hr |- *. simpl in Hr. simplify_eq. split_and!; [done..|].
  destruct (script_for E idea duration) as [script|e] eqn:Hscript.
  2: { rewrite (admitted_outcome_script_fails E store idea duration e Hscript)
         in Hrun. by simplify_eq. }
  rewrite (admitted_outcome_script_returns E store idea duration script
             Hscript) in Hrun.
  destruct (generateImages E script _) as [[images|e] w2] eqn:Himages;
    [|by simplify_eq].
  exists script.
  split; [by destruct (script_for_Normal_inv _ _ _ _ Hscript) as (_ & _ & ?)|].
  assert (Forall (λ scene, promptable scene = true) script) as Hwf.
  { eapply generateImages_Normal_inv. by rewrite Himages. }
  rewrite generateImages_run in Himages by done. by simplify_eq.
Qed.

Lemma status_200_only_when_counted_witness :
  store_after (today_store 10) robot_env (post body_robot) = today_store 11.
Proof.
  destruct (status_200_only_when_counted (today_store 10) robot_env
              (post body_robot)
              (reply 200 (ResultBody [scene1; scene2; scene3]
                            [image_url 0; image_url 1; image_url 2])))
    as (_ & Hstore & _); [reflexivity | reflexivity | exact Hstore].
Defined.

Lemma observed_full_iff E store :
  GLOBAL_DAILY_LIMIT ≤ count (observed_state E store)
  ↔ ∃ stored, store = Some stored
              ∧ lastReset stored = before_T (now_handler E)
              ∧ GLOBAL_DAILY_LIMIT ≤ count stored.
Proof.
  unfold observed_state, reset_if_new_day, GLOBAL_DAILY_LIMIT. split.
  - destruct (String.eqb _ _) eqn:Hsame; simpl; [|lia].
    apply String.eqb_eq in Hsame. destruct store as [stored|]; simpl in *.
    + intros Hfull. by exists stored.
    + lia.
  - intros (stored & -> & Hday & Hfull). simpl.
    by rewrite Hday, String.eqb_refl.
Qed.

(** X13.  A POST is answered 429 exactly when the store holds a counter
    dated today whose count has reached the limit; an empty store or a
    counter of another day never refuses. *)
Theorem status_429_iff_todays_counter_full store E event :
  httpMethod event = "POST" →
  (serve store E event).1 = Normal (reply 429 (ErrorBody msg_limit))
  ↔ ∃ stored, store = Some stored
              ∧ lastReset stored = before_T (now_handler E)
              ∧ GLOBAL_DAILY_LIMIT ≤ count stored.
Proof.
  intros HPOST. rewrite <- observed_full_iff. split.
  - intros Hr. by eapply answer_429_inv.
  - intros Hfull. by rewrite serve_rejected.
Qed.

Lemma status_429_iff_todays_counter_full_witness :
  (serve (today_store 50) robot_env (post body_robot)).1
  = Normal (reply 429 (ErrorBody msg_limit)).
Proof.
  apply (status_429_iff_todays_counter_full (today_store 50) robot_env
           (post body_robot)); [reflexivity|].
  eexists. split_and!; [reflexivity | reflexivity | done].
Defined.

(** X14.  What the caller is told when the script cannot be had, for an
    admitted request.  When [duration] or [idea] has no string
    conversion: the engine's message for the first of the two that has
    none, and nothing was sent.  Otherwise: the upstream message on a
    non-success status; the format message when a JSON answer carries no
    script array; and the message of the underlying error when the
    request itself fails or the body of a success is not JSON. *)
Theorem script_failures_surface_as_500 store E event idea duration :
  admitted store E event = true →
  request_fields E event = Normal (idea, duration) →
  (convertible duration && convertible idea = false →
   serve store E event
   = (Normal (reply 500 (ErrorBody (error_text (Error
        (ToPrimitive_message E
           (if convertible duration then idea else duration)))))),
      {| counterState := Some (incremented E store);
         calls := [UpdateCounterState (incremented E store)] |}))
  ∧ (convertible duration = true → convertible idea = true →
     (∀ e, fetch_gemini E = Rejects e →
           (serve store E event).1
           = Normal (reply 500 (ErrorBody (error_text e))))
     ∧ (∀ res errorBody,
          fetch_gemini E = Resolves res → ok res = false →
          response_text res = Normal errorBody →
          (serve store E event).1
          = Normal (reply 500 (ErrorBody msg_upstream)))
     ∧ (∀ res e,
          fetch_gemini E = Resolves res → ok res = true →
          response_json res = Throw e →
          (serve store E event).1
          = Normal (reply 500 (ErrorBody (error_text e))))
     ∧ (∀ res data,
          fetch_gemini E = Resolves res → ok res = true →
          response_json res = Normal data →
          (∀ scenes, ¬ carries_script E data scenes) →
          (serve store E event).1
          = Normal (reply 500 (ErrorBody msg_format)))).
Proof.
  intros Hadm Hfields. split.
  - intros Hconv.
    rewrite (admitted_script_failure store E event idea duration
               (Error (ToPrimitive_message E
                         (if convertible duration then idea else duration))));
      try done.
    + unfold script_calls. by rewrite Hconv.
    + unfold script_for. by rewrite generateScript_no_prompt.
  - intros Hd Hi.
    assert (∀ e, script_outcome E = Throw e →
                 (serve store E event).1
                 = Normal (reply 500 (ErrorBody (error_text e)))) as Hfail.
    { intros e Hout.
      rewrite (admitted_script_failure store E event idea duration e);
        try done.
      by rewrite script_for_convertible. }
    split_and!.
    + intros e Hfetch. by apply Hfail, script_outcome_rejected.
    + intros res errorBody Hfetch Hok Htext.
      apply (Hfail (Error msg_upstream)).
      by rewrite (script_outcome_not_ok E res), Htext.
    + intros res e Hfetch Hok Hjson.
      by apply Hfail, script_outcome_not_json with res.
    + intros res data Hfetch Hok Hjson Hnone.
      apply (Hfail (Error msg_format)).
      by apply script_outcome_not_carried with res data.
Qed.

Lemma script_failures_surface_as_500_witness :
  (serve (today_store 10) gemini_garbage_env (post body_robot)).1
  = Normal (reply 500 (ErrorBody "Unexpected token < in JSON"))
  ∧ serve (today_store 10) stubborn_idea_env (post body_stubborn_idea)
    = (Normal (reply 500
                 (ErrorBody "Cannot convert object to primitive value")),
       {| counterState := today_store 11;
          calls := [UpdateCounterState
                      {| count := 11; lastReset := "2024-05-02" |}] |}).
Proof.
  split.
  - destruct (script_failures_surface_as_500 (today_store 10)
                gemini_garbage_env (post body_robot)
                (VString "a robot learns to paint") (VNumber 30%float))
      as (_ & Hsent); [reflexivity..|].
    destruct (Hsent eq_refl eq_refl) as (_ & _ & Hjson & _).
    eapply (Hjson _ (Error "Unexpected token < in JSON")); reflexivity.
  - destruct (script_failures_surface_as_500 (today_store 10)
                stubborn_idea_env (post body_stubborn_idea)
                stubborn (VNumber 30%float))
      as (Hprompt & _); [reflexivity..|].
    exact (Hprompt eq_refl).
Defined.

(** ** From one request to the next *)

(** X15.  What an admitted request writes is what the next request of
    the same UTC day reads: its limit check looks at exactly the
    incremented counter. *)
Theorem written_counter_is_read_back store E event E' :
  admitted store E event = true →
  before_T (now_handler E') = before_T (now_handler E) →
  observed_state E' (store_after store E event) = incremented E store.
Proof.
  intros Hadm Hday.
  destruct (admitted_run _ _ _ Hadm) as (rest & _ & _ & ->).
  unfold incremented. rewrite observed_dated_today.
  by apply observed_same_day.
Qed.

Lemma written_counter_is_read_back_witness :
  observed_state gemini_down_env
    (store_after (today_store 10) robot_env (post body_robot))
  = {| count := 11; lastReset := "2024-05-02" |}.
Proof.
  apply (written_counter_is_read_back (today_store 10) robot_env
           (post body_robot) gemini_down_env); reflexivity.
Defined.

(** X16.  A request that is not admitted -- refused, invalid,
    unparseable or of another method -- costs nothing: it makes no call,
    the stored count is what it was, and a store that held a counter
    holds the same counter. *)
Theorem not_admitted_costs_nothing store E event :
  admitted store E event = false →
  calls_of store E event = []
  ∧ stored_count (store_after store E event) = stored_count store
  ∧ (∀ stored, store = Some stored → store_after store E event = store).
Proof.
  intros Hnot. split_and!.
  - by apply not_admitted_run.
  - by apply not_admitted_count.
  - intros stored ->. by destruct (not_admitted_run _ _ _ Hnot) as [_ [?|?]].
Qed.

Lemma not_admitted_costs_nothing_witness :
  store_after (today_store 10) robot_env (post body_no_idea) = today_store 10
  ∧ calls_of (today_store 10) robot_env (post "{") = [].
Proof.
  split.
  - destruct (not_admitted_costs_nothing (today_store 10) robot_env
                (post body_no_idea)) as (_ & _ & Hstore); [reflexivity|].
    by apply (Hstore {| count := 10; lastReset := "2024-05-02" |}).
  - by apply (not_admitted_costs_nothing (today_store 10) robot_env
                (post "{")).
Defined.

(** ** A run that starts on a new day *)

(** X17.  A run of requests of the UTC day [d] that finds a counter of
    another day: as long as no request is admitted the stale counter
    stays in the store, whatever its count; from the first admitted
    request on the store holds a counter of [d] whose count is the number
    of requests admitted so far -- yesterday's count is not carried
    over. *)
Theorem new_day_run d (stored : counter) reqs :
  Forall (λ r : environment * request, before_T (now_handler r.1) = d) reqs →
  lastReset stored ≠ d →
  serve_all (Some stored) reqs
  = match admitted_count (Some stored) reqs with
    | O => Some stored
    | S n => Some {| count := N.of_nat (S n); lastReset := d |}
    end.
Proof.
  intros Hday Hstale. induction reqs as [|[E event] rest IH]; [done|].
  apply Forall_cons in Hday as [HE Hrest]. simpl in HE.
  cbn [serve_all admitted_count].
  destruct (admitted (Some stored) E event) eqn:Hadm.
  - destruct (admitted_run _ _ _ Hadm) as (calls & _ & _ & ->).
    assert (incremented E (Some stored) = {| count := 1; lastReset := d |})
      as ->.
    { unfold incremented, observed_state, reset_if_new_day. simpl.
      rewrite HE. apply String.eqb_neq in Hstale. by rewrite Hstale. }
    rewrite (serve_all_counts d rest 1 Hrest). simpl. do 2 f_equal. lia.
  - destruct (not_admitted_run _ _ _ Hadm) as [_ [-> | ->]]; by apply IH.
Qed.

Lemma new_day_run_witness :
  serve_all (Some {| count := 50; lastReset := "2024-05-01" |}) mixed_day
  = today_store 2
  ∧ serve_all (Some {| count := 50; lastReset := "2024-05-01" |})
              [(robot_env, post body_no_idea); (robot_env, get_request)]
    = Some {| count := 50; lastReset := "2024-05-01" |}.
Proof.
  split.
  - apply (new_day_run "2024-05-02"
             {| count := 50; lastReset := "2024-05-01" |} mixed_day);
      [repeat constructor | discriminate].
  - apply (new_day_run "2024-05-02"
             {| count := 50; lastReset := "2024-05-01" |}
             [(robot_env, post body_no_idea); (robot_env, get_request)]);
      [repeat constructor | discriminate].
Defined.

(** An empty script is a script: the array is truthy, so the request
    succeeds with no image and no call to the image service. *)
Example empty_script :
  serve (today_store 10) empty_script_env (post body_robot)
  = (Normal (reply 200 (ResultBody [] [])),
     {| counterState := today_store 11;
        calls := [UpdateCounterState
                    {| count := 11; lastReset := "2024-05-02" |};
                  FetchGemini (VString "a robot learns to paint")
                              (VNumber 30%float)] |}).
Proof. vm_compute. reflexivity. Qed.
